(** * pandas-string-transformer: a shallow embedding

    The development follows the two modules of the package:
    [string_transformer.py] (the [StringTransformer] class) and
    [common_transforms.py] (the library of string functions).

    Python objects that the class mutates or whose identity matters (the
    transformer, the data frames) live in an explicit store; everything
    else is a value.  Exceptions are results of a sum type and are threaded
    through a small state-and-error monad. *)

From Stdlib Require Import ZArith Lia SpecFloat.
From stdpp Require Import gmap strings list pretty.

Open Scope string_scope.
Open Scope list_scope.
Open Scope stdpp_scope.

(** ** Python values *)

(** Function objects of the program.  The functions of
    [common_transforms.py] that the development evaluates are named;
    [FnUser n] stands for any other function object. *)
Inductive fn : Type :=
| FnMultiReplace
| FnHashString
| FnUser (n : nat).

(** The fragment of Python's values that the transformer inspects: it
    asks whether a value is callable, a [str], a [tuple], a [list] or a
    [dict].  Characters of a [str] are code points below 256.  A [dict]
    keeps its items in insertion order, as Python does.  A [float] is a
    binary64 number. *)
#[warnings="-register-all"]
Inductive pyval : Type :=
| VNone
| VBool (b : bool)
| VInt (n : Z)
| VStr (s : string)
| VTuple (elems : list pyval)
| VList (elems : list pyval)
| VDict (items : list (pyval * pyval))
| VFunc (f : fn)
| VFloat (x : spec_float).

(** Keyword arguments of a call: names to values, in call order. *)
Definition kwargs : Type := list (string * pyval).

(** [callable(v)]: the callables of the model are the function objects. *)
Definition callable (v : pyval) : bool :=
  match v with VFunc _ => true | _ => false end.

Definition isinstance_str (v : pyval) : bool :=
  match v with VStr _ => true | _ => false end.

Definition isinstance_tuple (v : pyval) : bool :=
  match v with VTuple _ => true | _ => false end.

Definition isinstance_dict (v : pyval) : bool :=
  match v with VDict _ => true | _ => false end.

(** [isinstance(v, (tuple, list))] *)
Definition isinstance_tuple_list (v : pyval) : bool :=
  match v with VTuple _ | VList _ => true | _ => false end.

(** Truth value of an object, as [not v] and [v or w] test it. *)
Definition truthy (v : pyval) : bool :=
  match v with
  | VNone => false
  | VBool b => b
  | VInt n => negb (n =? 0)%Z
  | VStr s => negb (String.length s =? 0)%nat
  | VTuple l | VList l => negb (length l =? 0)%nat
  | VDict d => negb (length d =? 0)%nat
  | VFunc _ => true
  | VFloat (S754_zero _) => false
  | VFloat _ => true
  end.

(** ** Exceptions and results *)

Inductive exn_kind : Type :=
| TypeError
| ValueError
| KeyError
| AttributeError
| SystemExit
| KeyboardInterrupt
| GeneratorExit.

(** Whether a class of errors derives from [Exception]; the last three
    derive from [BaseException] only. *)
Definition is_exception (k : exn_kind) : bool :=
  match k with
  | SystemExit | KeyboardInterrupt | GeneratorExit => false
  | _ => true
  end.

Record exn : Type := Exn { exn_type : exn_kind; exn_msg : string }.

Inductive result (A : Type) : Type :=
| Ok (a : A)
| Raise (e : exn).
Arguments Ok {A} a.
Arguments Raise {A} e.

Definition rbind {A B} (r : result A) (k : A → result B) : result B :=
  match r with
  | Ok a => k a
  | Raise e => Raise e
  end.

(** [try: r except Exception: raise e]: an error that does not derive
    from [Exception] passes through unchanged. *)
Definition try_except {A} (r : result A) (e : exn) : result A :=
  match r with
  | Ok a => Ok a
  | Raise e0 => if is_exception (exn_type e0) then Raise e else Raise e0
  end.

(** The semantics of calling a function object with positional and
    keyword arguments. *)
Definition call_sem : Type := fn → list pyval → kwargs → result pyval.

(** Calling an arbitrary object [func] with unpacked positional and
    keyword arguments. *)
Definition py_call (call : call_sem) (func : pyval) (args : list pyval)
    (kw : kwargs) : result pyval :=
  match func with
  | VFunc f => call f args kw
  | _ => Raise (Exn TypeError "object is not callable")
  end.

(** Star-unpacking at a call site: the elements of a tuple or list. *)
Definition unpack_args (args : pyval) : result (list pyval) :=
  match args with
  | VTuple l | VList l => Ok l
  | _ => Raise (Exn TypeError "argument after * must be an iterable")
  end.

(** Double-star unpacking at a call site: the items of a dict, whose keys
    must all be strings. *)
Fixpoint unpack_items (items : list (pyval * pyval)) : result kwargs :=
  match items with
  | [] => Ok []
  | (VStr k, v) :: rest => rbind (unpack_items rest) (λ kw, Ok ((k, v) :: kw))
  | _ :: _ => Raise (Exn TypeError "keywords must be strings")
  end.

Definition unpack_kwargs (kw : pyval) : result kwargs :=
  match kw with
  | VDict items => unpack_items items
  | _ => Raise (Exn TypeError "argument after ** must be a mapping")
  end.

(** ** The tabular collaborator (pandas)

    A [Series] is a declared element type and the cells; a [DataFrame] is
    the ordered sequence of its labelled columns.  Labels are strings or
    integers (the default labels of a frame built from rows), and a label
    may occur on several columns.  Only the four operations the
    transformer uses are modelled: selecting columns by declared type,
    selecting by label, mapping a function over a column, and [assign]. *)

Inductive dtype : Type :=
| DObject
| DInt64
| DBool
| DFloat64.

Global Instance dtype_eq_dec : EqDecision dtype.
Proof. solve_decision. Defined.

Record Series : Type := MkSeries { s_dtype : dtype; s_values : list pyval }.

Inductive label : Type :=
| LStr (s : string)
| LInt (n : Z).

Coercion LStr : string >-> label.

Global Instance label_eq_dec : EqDecision label.
Proof. solve_decision. Defined.

(** The text of a label in the message of a [KeyError]. *)
Definition label_text (l : label) : string :=
  match l with
  | LStr s => s
  | LInt n => pretty n
  end.

Abbreviation DataFrame := (list (label * Series)).

(** [X.select_dtypes(include=["object"])]: the sub-frame of the columns
    declared with the generic object type. *)
Definition select_dtypes_object (X : DataFrame) : DataFrame :=
  filter (λ c, s_dtype c.2 = DObject) X.

(** Iterating over a frame yields its column labels in order. *)
Definition df_iter (X : DataFrame) : list label := X.*1.

(** [X[col]]: the columns that carry the label, in the order of the frame
    (one [Series], or a frame when the label is repeated), or
    [KeyError(col)] when there is none. *)
Definition df_getitem (X : DataFrame) (col : label) : result (list Series) :=
  match filter (λ c, c.1 = col) X with
  | [] => Raise (Exn KeyError (label_text col))
  | cs => Ok cs.*2
  end.

(** The columns of [v] put in place of the columns labelled [k], in
    order, as long as both last. *)
Fixpoint set_labelled (X : DataFrame) (k : label) (v : list Series) : DataFrame :=
  match X with
  | [] => []
  | (name, s) :: rest =>
      if decide (name = k) then
        match v with
        | s' :: v' => (name, s') :: set_labelled rest k v'
        | [] => (name, s) :: rest
        end
      else (name, s) :: set_labelled rest k v
  end.

(** [data[k] = v] on a frame, where [v] is a selection of columns (one
    [Series], or a frame).  When the frame has the label, [v] needs one
    column for each column that carries it, and these are replaced where
    they stand; otherwise a single column is appended under the label. *)
Definition df_setitem (X : DataFrame) (k : label) (v : list Series)
    : result DataFrame :=
  if decide (k ∈ df_iter X) then
    if decide (length (filter (λ c, c.1 = k) X) = length v)
    then Ok (set_labelled X k v)
    else Raise (Exn ValueError "Columns must be same length as key")
  else
    match v with
    | [s] => Ok (X ++ [(k, s)])
    | [] => Raise (Exn ValueError
                     "Cannot set a DataFrame without columns to the column")
    | _ => Raise (Exn ValueError
                    "Cannot set a DataFrame with multiple columns to the single column")
    end.

(** [funcs.update({k: v})] on a dict: the value of an existing key is
    replaced, the key keeps its place. *)
Fixpoint dict_update {K} `{EqDecision K} {V} (d : list (K * V)) (k : K) (v : V)
    : list (K * V) :=
  match d with
  | [] => [(k, v)]
  | (k', v') :: rest =>
      if decide (k' = k) then (k', v) :: rest
      else (k', v') :: dict_update rest k v
  end.

(** A method that takes arbitrary keywords still has named parameters of
    its own ([self], and [func] for [add]); a keyword with such a name
    collides with the argument already bound and the call raises
    [TypeError] before the body runs. *)
Definition keyword_clash (reserved : list string) (names : list string) : bool :=
  existsb (λ k, bool_decide (k ∈ reserved)) names.

(** ** The object store *)

Definition loc : Type := nat.

(** A step of the pipeline: the tuple [(func, args, kwargs)]. *)
Definition step : Type := pyval * list pyval * kwargs.

(** The two attributes of a [StringTransformer] instance; [_columns] is
    [None] when the constructor got no column list. *)
Record StringTransformer : Type := MkStringTransformer {
  _columns : option (list label);
  _pipeline : list step
}.

Record heap : Type := MkHeap {
  transformers : gmap loc StringTransformer;
  frames : gmap loc DataFrame
}.

Definition empty_heap : heap := MkHeap ∅ ∅.

(** Computations that read and write the store and may raise.  An
    exception keeps the store as it was when it was raised. *)
Definition M (A : Type) : Type := heap → heap * result A.

Definition ret {A} (a : A) : M A := λ h, (h, Ok a).

Definition raise {A} (e : exn) : M A := λ h, (h, Raise e).

Definition bind {A B} (m : M A) (k : A → M B) : M B :=
  λ h, match m h with
       | (h', Ok a) => k a h'
       | (h', Raise e) => (h', Raise e)
       end.

Definition lift {A} (r : result A) : M A := λ h, (h, r).

Notation "'let*' x ':=' m 'in' k" := (bind m (λ x, k))
  (at level 10, x name, m at level 100, k at level 200).
Notation "'let*' ' p ':=' m 'in' k" := (bind m (λ x, match x with p => k end))
  (at level 10, p pattern, m at level 100, k at level 200).
Notation "'do' m 'in' k" := (bind m (λ _, k))
  (at level 10, m at level 100, k at level 200).

(** Reading the object at an address.  A run of the program only holds
    addresses of live objects; for any other address the read raises. *)
Definition get_transformer (self : loc) : M StringTransformer :=
  λ h, match transformers h !! self with
       | Some t => (h, Ok t)
       | None => (h, Raise (Exn AttributeError "no such StringTransformer"))
       end.

Definition get_frame (X : loc) : M DataFrame :=
  λ h, match frames h !! X with
       | Some df => (h, Ok df)
       | None => (h, Raise (Exn AttributeError "no such DataFrame"))
       end.

Definition set_transformer (self : loc) (t : StringTransformer) : M unit :=
  λ h, (MkHeap (<[self := t]> (transformers h)) (frames h), Ok tt).

(** Allocation of a new frame object at an address not in use. *)
Definition new_frame (df : DataFrame) : M loc :=
  λ h, let r := fresh (dom (frames h)) in
       (MkHeap (transformers h) (<[r := df]> (frames h)), Ok r).

Definition new_transformer (t : StringTransformer) : M loc :=
  λ h, let r := fresh (dom (transformers h)) in
       (MkHeap (<[r := t]> (transformers h)) (frames h), Ok r).

(** The columns of a copy of [df] after each item of [funcs] was set on
    it, in order. *)
Fixpoint df_assign_cols (data : DataFrame)
    (funcs : list (label * list Series)) : result DataFrame :=
  match funcs with
  | [] => Ok data
  | (k, v) :: rest =>
      rbind (df_setitem data k v) (λ data', df_assign_cols data' rest)
  end.

Definition is_str_label (l : label) : bool :=
  match l with LStr _ => true | LInt _ => false end.

(** [X.assign] with the dict [funcs] as keywords: copy the frame, set each
    keyword as a column of the copy, return the copy.  Keywords have to be
    strings, and the signature is [assign(self, **kwargs)], so the label
    "self" cannot be passed either.  The copy enters the store when it is
    returned: nothing refers to it before. *)
Definition df_assign (X : loc) (funcs : list (label * list Series)) : M loc :=
  if negb (forallb is_str_label funcs.*1) then
    raise (Exn TypeError "keywords must be strings")
  else if bool_decide (LStr "self" ∈ funcs.*1) then
    raise (Exn TypeError "assign() got multiple values for argument 'self'")
  else
    let* df := get_frame X in
    let* data := lift (df_assign_cols df funcs) in
    new_frame data.

(** [for x in items: s = body(x, s)], leaving at the first exception. *)
Fixpoint for_loop {A S} (items : list A) (body : A → S → M S) (s : S) : M S :=
  match items with
  | [] => ret s
  | x :: rest => let* s' := body x s in for_loop rest body s'
  end.

(** Applying [f] to the columns of a selection in order. *)
Fixpoint map_columns (f : Series → M Series) (cols : list Series)
    : M (list Series) :=
  match cols with
  | [] => ret []
  | s :: rest =>
      let* s' := f s in
      let* rest' := map_columns f rest in
      ret (s' :: rest')
  end.

(** Applying [f] to the cells of a column in order. *)
Fixpoint map_cells (f : pyval → M pyval) (cells : list pyval) : M (list pyval) :=
  match cells with
  | [] => ret []
  | v :: rest =>
      let* v' := f v in
      let* rest' := map_cells f rest in
      ret (v' :: rest')
  end.

(** ** string_transformer.py *)

Section StringTransformer.

(** What calling a function object does. *)
Variable call : call_sem.

(** The column pandas builds from the results of a map: it infers an
    element type for them and converts the cells to it.  The arguments
    are the type of the mapped column and the results. *)
Variable map_infer : dtype → list pyval → Series.

(** [Series.map(f)] *)
Definition Series_map (f : pyval → M pyval) (s : Series) : M Series :=
  let* vs := map_cells f (s_values s) in
  ret (map_infer (s_dtype s) vs).

(** [StringTransformer(columns)] *)
Definition __init__ (columns : option (list label)) : M loc :=
  new_transformer (MkStringTransformer columns []).

(** [_check_function(func, *args, **kwargs)] *)
Definition _check_function (func : pyval) (args : list pyval) (kw : kwargs)
    : result unit :=
  if keyword_clash ["func"] kw.*1 then
    Raise (Exn TypeError "_check_function() got multiple values for argument")
  else if negb (callable func) then
    Raise (Exn TypeError "Supplied function is not callable!")
  else
    rbind
      (try_except (py_call call func (VStr "test_string" :: args) kw)
         (Exn ValueError "Supplied function does not work with strings!"))
      (λ result,
         if negb (isinstance_str result) then
           Raise (Exn ValueError "Supplied function does not return a string!")
         else Ok tt).

(** [self._pipeline.append(s)] *)
Definition pipeline_append (self : loc) (s : step) : M unit :=
  let* t := get_transformer self in
  set_transformer self
    (MkStringTransformer (_columns t) (_pipeline t ++ [s])).

(** [add(self, func, *args, **kwargs)]: the check is called with [func]
    alone. *)
Definition add (self : loc) (func : pyval) (args : list pyval) (kw : kwargs)
    : M unit :=
  if keyword_clash ["self"; "func"] kw.*1 then
    raise (Exn TypeError "add() got multiple values for argument")
  else
    do lift (_check_function func [] []) in
    pipeline_append self (func, args, kw).

(** One round of the loop over the elements of a step tuple; the state is
    the triple of the locals [func], [args], [kwargs]. *)
Definition scan_elem (elem : pyval) (acc : pyval * pyval * pyval)
    : pyval * pyval * pyval :=
  let '(func, args, kw) := acc in
  if callable elem then (elem, args, kw)
  else if isinstance_dict elem then (func, args, elem)
  else if isinstance_tuple_list elem then (func, elem, kw)
  else (func, args, kw).

Definition scan_step (elems : list pyval) : pyval * pyval * pyval :=
  fold_left (λ acc elem, scan_elem elem acc) elems (VNone, VList [], VDict []).

(** [__add__(self, step)] *)
Definition __add__ (self : loc) (step : pyval) : M loc :=
  let* '(func, args, kw) :=
    (if callable step then ret (step, VList [], VDict [])
     else if isinstance_tuple step then
       match step with
       | VTuple elems => ret (scan_step elems)
       | _ => ret (VNone, VList [], VDict [])
       end
     else raise (Exn TypeError "Can only add steps as callable or tuple.")) in
  if negb (truthy func) then raise (Exn ValueError "No handler name specified.")
  else
    let* a := lift (unpack_args args) in
    let* k := lift (unpack_kwargs kw) in
    do add self func a k in
    ret self.

(** [list_steps(self)] *)
Definition list_steps (self : loc) : M (list step) :=
  let* t := get_transformer self in ret (_pipeline t).

(** [fit(self, X, y=None)] *)
Definition fit (self : loc) (X : loc) : M loc := ret self.

(** [_apply_steps(self, value)] *)
Definition _apply_steps (self : loc) (value : pyval) : M pyval :=
  let* t := get_transformer self in
  for_loop (_pipeline t)
    (λ '(func, args, kw) value, lift (py_call call func (value :: args) kw))
    value.

(** The column selection of [transform]:
    [self._columns or X.select_dtypes(include=["object"])], as the
    sequence of labels the loop then iterates over. *)
Definition select_columns (t : StringTransformer) (df : DataFrame)
    : list label :=
  match _columns t with
  | Some l =>
      if negb (length l =? 0)%nat then l
      else df_iter (select_dtypes_object df)
  | None => df_iter (select_dtypes_object df)
  end.

(** [transform(self, X)] *)
Definition transform (self : loc) (X : loc) : M loc :=
  let* t := get_transformer self in
  let* df := get_frame X in
  let columns := select_columns t df in
  let* funcs :=
    for_loop columns
      (λ col funcs,
         let* df := get_frame X in
         let* cols := lift (df_getitem df col) in
         let* cols' := map_columns (Series_map (_apply_steps self)) cols in
         ret (dict_update funcs col cols'))
      [] in
  df_assign X funcs.

End StringTransformer.

(** ** common_transforms.py *)

(** *** [str.replace] and [multi_replace] *)

(** [str.replace(old, new)] for a non-empty [old]: scan from the left,
    replace each occurrence and resume after it.  [skip] counts the
    characters of the occurrence just replaced that are still to be
    passed over. *)
Fixpoint replace_scan (old new : string) (skip : nat) (s : string) : string :=
  match s with
  | EmptyString => EmptyString
  | String c rest =>
      match skip with
      | S n => replace_scan old new n rest
      | O =>
          if String.prefix old s
          then new +:+ replace_scan old new (String.length old - 1) rest
          else String c (replace_scan old new 0 rest)
      end
  end.

(** With an empty [old], Python inserts [new] before every character and
    at the end. *)
Fixpoint replace_empty (new : string) (s : string) : string :=
  match s with
  | EmptyString => new
  | String c rest => new +:+ String c (replace_empty new rest)
  end.

Definition str_replace (s old new : string) : string :=
  match old with
  | EmptyString => replace_empty new s
  | _ => replace_scan old new 0 s
  end.

(** [value.replace(search, replace)] on arbitrary objects: only a [str]
    has the method, and it takes [str] arguments. *)
Definition py_replace (value search replace : pyval) : result pyval :=
  match value with
  | VStr s =>
      match search, replace with
      | VStr old, VStr new => Ok (VStr (str_replace s old new))
      | _, _ => Raise (Exn TypeError "replace() argument must be str")
      end
  | _ => Raise (Exn AttributeError "object has no attribute 'replace'")
  end.

(** The loop of [multi_replace] over [mapping.items()]. *)
Fixpoint multi_replace_loop (items : list (pyval * pyval)) (value : pyval)
    : result pyval :=
  match items with
  | [] => Ok value
  | (search, replace) :: rest =>
      rbind (py_replace value search replace) (multi_replace_loop rest)
  end.

(** [multi_replace(value, mapping=None)] *)
Definition multi_replace (value : pyval) (mapping : pyval) : result pyval :=
  match mapping with
  | VDict items => multi_replace_loop items value
  | _ => Raise (Exn AttributeError "object has no attribute 'items'")
  end.

(** *** The hash module (hashlib) *)

(** [str.encode()]: UTF-8 of a string of code points below 256. *)
Definition utf8_char (c : Ascii.ascii) : list Z :=
  let n := Z.of_N (Ascii.N_of_ascii c) in
  if (n <? 128)%Z then [n]
  else [Z.lor 192 (Z.shiftr n 6); Z.lor 128 (Z.land n 63)].

Fixpoint encode_utf8 (s : string) : list Z :=
  match s with
  | EmptyString => []
  | String c rest => utf8_char c ++ encode_utf8 rest
  end.

Definition hex_digit (n : Z) : Ascii.ascii :=
  if (n <? 10)%Z then Ascii.ascii_of_N (Z.to_N (48 + n))
  else Ascii.ascii_of_N (Z.to_N (87 + n)).

(** Lowercase hexadecimal rendering of a byte string. *)
Fixpoint hex_of_bytes (bs : list Z) : string :=
  match bs with
  | [] => EmptyString
  | b :: rest =>
      String (hex_digit (Z.shiftr b 4))
        (String (hex_digit (Z.land b 15)) (hex_of_bytes rest))
  end.

Module SHA1.

Definition w32 (x : Z) : Z := Z.land x 0xFFFFFFFF.

Definition add32 (x y : Z) : Z := w32 (x + y).

Definition rotl (n x : Z) : Z :=
  w32 (Z.lor (Z.shiftl x n) (Z.shiftr x (32 - n))).

Definition not32 (x : Z) : Z := Z.lxor x 0xFFFFFFFF.

(** The [n] low bytes of [x], most significant first. *)
Definition be_bytes (n : nat) (x : Z) : list Z :=
  map (λ i, Z.land (Z.shiftr x (8 * Z.of_nat i)) 255) (rev (seq 0 n)).

Definition pad (msg : list Z) : list Z :=
  let l := Z.of_nat (length msg) in
  let k := Z.to_nat ((55 - l) mod 64) in
  msg ++ [128%Z] ++ replicate k 0%Z ++ be_bytes 8 (8 * l).

Fixpoint words (bs : list Z) : list Z :=
  match bs with
  | b0 :: b1 :: b2 :: b3 :: rest =>
      Z.lor (Z.shiftl b0 24) (Z.lor (Z.shiftl b1 16) (Z.lor (Z.shiftl b2 8) b3))
      :: words rest
  | _ => []
  end.

Fixpoint blocks (fuel : nat) (ws : list Z) : list (list Z) :=
  match fuel, ws with
  | S f, _ :: _ => take 16 ws :: blocks f (drop 16 ws)
  | _, _ => []
  end.

Fixpoint schedule (n : nat) (w : list Z) : list Z :=
  match n with
  | O => w
  | S n' =>
      let t := length w in
      let x :=
        Z.lxor (nth (t - 3) w 0%Z)
          (Z.lxor (nth (t - 8) w 0%Z)
             (Z.lxor (nth (t - 14) w 0%Z) (nth (t - 16) w 0%Z))) in
      schedule n' (w ++ [rotl 1 x])
  end.

Definition state : Type := Z * Z * Z * Z * Z.

Definition round (t : nat) (wt : Z) (st : state) : state :=
  let '(a, b, c, d, e) := st in
  let '(f, k) :=
    if (t <? 20)%nat then
      (Z.lor (Z.land b c) (Z.land (not32 b) d), 0x5A827999%Z)
    else if (t <? 40)%nat then
      (Z.lxor b (Z.lxor c d), 0x6ED9EBA1%Z)
    else if (t <? 60)%nat then
      (Z.lor (Z.land b c) (Z.lor (Z.land b d) (Z.land c d)), 0x8F1BBCDC%Z)
    else
      (Z.lxor b (Z.lxor c d), 0xCA62C1D6%Z) in
  let temp := add32 (add32 (add32 (add32 (rotl 5 a) f) e) k) wt in
  (temp, a, rotl 30 b, c, d).

Fixpoint rounds (t : nat) (w : list Z) (st : state) : state :=
  match w with
  | [] => st
  | wt :: rest => rounds (S t) rest (round t wt st)
  end.

Definition compress (st : state) (block : list Z) : state :=
  let '(h0, h1, h2, h3, h4) := st in
  let '(a, b, c, d, e) := rounds 0 (schedule 64 block) st in
  (add32 h0 a, add32 h1 b, add32 h2 c, add32 h3 d, add32 h4 e).

Definition init : state :=
  (0x67452301, 0xEFCDAB89, 0x98BADCFE, 0x10325476, 0xC3D2E1F0)%Z.

(** The 20-byte digest of a byte string. *)
Definition digest (msg : list Z) : list Z :=
  let ws := words (pad msg) in
  let '(h0, h1, h2, h3, h4) := fold_left compress (blocks (length ws) ws) init in
  be_bytes 4 h0 ++ be_bytes 4 h1 ++ be_bytes 4 h2 ++ be_bytes 4 h3
    ++ be_bytes 4 h4.

End SHA1.

(** *** Calling convention *)

Fixpoint kw_lookup (name : string) (kw : kwargs) : option pyval :=
  match kw with
  | [] => None
  | (k, v) :: rest => if decide (k = name) then Some v else kw_lookup name rest
  end.

Definition kw_remove (name : string) (kw : kwargs) : kwargs :=
  filter (λ p, p.1 ≠ name) kw.

(** Binding the arguments of a call to the parameters of a [def]; each
    parameter is a name and its default, if it has one.  Every mismatch is
    a [TypeError]. *)
Fixpoint bind_args (params : list (string * option pyval))
    (args : list pyval) (kw : kwargs) : result (list pyval) :=
  match params with
  | [] =>
      match args, kw with
      | [], [] => Ok []
      | _ :: _, _ => Raise (Exn TypeError "too many positional arguments")
      | [], _ :: _ => Raise (Exn TypeError "unexpected keyword argument")
      end
  | (name, default) :: ps =>
      match args with
      | a :: rest =>
          match kw_lookup name kw with
          | Some _ => Raise (Exn TypeError "multiple values for argument")
          | None => rbind (bind_args ps rest kw) (λ vs, Ok (a :: vs))
          end
      | [] =>
          match kw_lookup name kw, default with
          | Some v, _ =>
              rbind (bind_args ps [] (kw_remove name kw)) (λ vs, Ok (v :: vs))
          | None, Some d => rbind (bind_args ps [] kw) (λ vs, Ok (d :: vs))
          | None, None =>
              Raise (Exn TypeError "missing required positional argument")
          end
      end
  end.

(** Whether an object can be a member of a set. *)
Fixpoint hashable (v : pyval) : bool :=
  match v with
  | VTuple l => forallb hashable l
  | VList _ | VDict _ => false
  | _ => true
  end.

Section Runtime.

(** The names the cryptographic backend of the running interpreter adds
    to [hashlib.algorithms_available]. *)
Variable backend_names : list string.

(** The digest functions of the named constructors other than [sha1]. *)
Variable other_digest : string → list Z → list Z.

(** The function objects that are not part of the package. *)
Variable user_call : nat → list pyval → kwargs → result pyval.

(** [hashlib.algorithms_guaranteed]; these are also the names of the
    constructors that the module has as attributes. *)
Definition algorithms_guaranteed : list string :=
  ["md5"; "sha1"; "sha224"; "sha256"; "sha384"; "sha512";
   "blake2b"; "blake2s";
   "sha3_224"; "sha3_256"; "sha3_384"; "sha3_512";
   "shake_128"; "shake_256"].

(** [hashlib.algorithms_available], a superset of the guaranteed names. *)
Definition algorithms_available : list string :=
  algorithms_guaranteed ++ backend_names.

(** A hash object: the constructor it came from and the data it was
    fed. *)
Record hashobj : Type := MkHash { hash_name : string; hash_data : list Z }.

(** [getattr(hashlib, name)] for an available algorithm name. *)
Definition hashlib_getattr (name : string) : result (list Z → hashobj) :=
  if bool_decide (name ∈ algorithms_guaranteed) then Ok (MkHash name)
  else Raise (Exn AttributeError "module 'hashlib' has no attribute").

Definition digest_bytes (h : hashobj) : list Z :=
  if decide (hash_name h = "sha1") then SHA1.digest (hash_data h)
  else other_digest (hash_name h) (hash_data h).

(** [h.hexdigest()] without argument; the extendable-output functions
    require a length. *)
Definition hexdigest (h : hashobj) : result string :=
  if bool_decide (hash_name h ∈ ["shake_128"; "shake_256"]) then
    Raise (Exn TypeError "hexdigest() missing required argument 'length'")
  else Ok (hex_of_bytes (digest_bytes h)).

(** [value.encode()].  The strings of this development hold code points
    below 256, and these all encode; the [UnicodeEncodeError] that Python
    raises for a string with a lone surrogate has no counterpart here. *)
Definition py_encode (value : pyval) : result (list Z) :=
  match value with
  | VStr s => Ok (encode_utf8 s)
  | _ => Raise (Exn AttributeError "object has no attribute 'encode'")
  end.

(** [hash_string(value, algorithm="sha1")] *)
Definition hash_string (value : pyval) (algorithm : pyval) : result pyval :=
  if negb (hashable algorithm) then Raise (Exn TypeError "unhashable type")
  else
    match algorithm with
    | VStr name =>
        if negb (bool_decide (name ∈ algorithms_available)) then
          Raise (Exn ValueError
                   ("Algorith " +:+ name +:+ " is not available on this system."))
        else
          rbind (hashlib_getattr name) (λ hash_func,
          rbind (py_encode value) (λ data,
          let hash_value := hash_func data in
          rbind (hexdigest hash_value) (λ hex, Ok (VStr hex))))
    | _ =>
        Raise (Exn ValueError "Algorith is not available on this system.")
    end.

Definition multi_replace_params : list (string * option pyval) :=
  [("value", None); ("mapping", Some VNone)].

Definition hash_string_params : list (string * option pyval) :=
  [("value", None); ("algorithm", Some (VStr "sha1"))].

(** Calling a function object of the running program. *)
Definition lib_call : call_sem :=
  λ f args kw,
    match f with
    | FnMultiReplace =>
        rbind (bind_args multi_replace_params args kw) (λ bound,
          match bound with
          | [value; mapping] => multi_replace value mapping
          | _ => Raise (Exn TypeError "wrong number of arguments")
          end)
    | FnHashString =>
        rbind (bind_args hash_string_params args kw) (λ bound,
          match bound with
          | [value; algorithm] => hash_string value algorithm
          | _ => Raise (Exn TypeError "wrong number of arguments")
          end)
    | FnUser n => user_call n args kw
    end.

End Runtime.

(** A concrete runtime for examples: no backend names, and three function
    objects outside the package: [FnUser 0] returns the integer 42,
    [FnUser 1] returns its single positional argument, every other one
    raises. *)
Definition example_user (n : nat) (args : list pyval) (kw : kwargs)
    : result pyval :=
  match n with
  | 0 => Ok (VInt 42)
  | 1 =>
      match args, kw with
      | [v], [] => Ok v
      | _, _ => Raise (Exn TypeError "takes exactly one argument")
      end
  | _ => Raise (Exn ValueError "unsupported")
  end.

Definition example_call : call_sem :=
  lib_call [] (λ _ _, []) example_user.

(** The conversion of an integer to a binary64 number. *)
Definition float_of_int (n : Z) : spec_float :=
  binary_normalize 53 1024 n 0 false.

Definition is_int_cell (v : pyval) : bool :=
  match v with VInt n => (- 2 ^ 63 <=? n)%Z && (n <? 2 ^ 63)%Z | _ => false end.

Definition is_bool_cell (v : pyval) : bool :=
  match v with VBool _ => true | _ => false end.

(** Integers of 64 bits, floats and [None], the cells that can stand in a
    column of floats. *)
Definition is_float_cell (v : pyval) : bool :=
  match v with
  | VInt _ => is_int_cell v
  | VFloat _ | VNone => true
  | _ => false
  end.

Definition is_number_cell (v : pyval) : bool :=
  match v with VInt _ | VFloat _ => true | _ => false end.

Definition to_float_cell (v : pyval) : pyval :=
  match v with
  | VInt n => VFloat (float_of_int n)
  | VNone => VFloat S754_nan
  | _ => v
  end.

(** The inference used in the examples; it follows pandas on the cells
    that occur there.  An empty result keeps the type of the mapped
    column; integers of 64 bits give [DInt64], booleans [DBool]; such
    integers and floats mixed with each other or with [None] give
    [DFloat64], with the integers converted and [None] as not-a-number;
    anything else stays a column of objects with the cells as they are. *)
Definition example_map_infer (d : dtype) (vs : list pyval) : Series :=
  match vs with
  | [] => MkSeries d []
  | _ =>
      if forallb is_int_cell vs then MkSeries DInt64 vs
      else if forallb is_bool_cell vs then MkSeries DBool vs
      else if forallb is_float_cell vs && existsb is_number_cell vs
      then MkSeries DFloat64 (to_float_cell <$> vs)
      else MkSeries DObject vs
  end.

(** ** Reference definitions

    These follow the wording of the specification and are compared with
    the code above. *)

Section Reference.

Variable call : call_sem.

(** The nested application [fn(... f2(f1(s, a1, k1), a2, k2) ..., an, kn)];
    [inner] lists the steps from the outermost (the last one added)
    inwards.  An error of an inner application is the error of the
    whole. *)
Fixpoint nested_application (inner : list step) (s : pyval) : result pyval :=
  match inner with
  | [] => Ok s
  | (f, a, k) :: rest =>
      rbind (nested_application rest s) (λ v, py_call call f (v :: a) k)
  end.

Definition composition (steps : list step) (s : pyval) : result pyval :=
  nested_application (rev steps) s.

(** Mapping a fallible function over cells, first error wins. *)
Fixpoint map_result (f : pyval → result pyval) (cells : list pyval)
    : result (list pyval) :=
  match cells with
  | [] => Ok []
  | v :: rest =>
      rbind (f v) (λ v', rbind (map_result f rest) (λ rest', Ok (v' :: rest')))
  end.

End Reference.

(** The last element of a tuple that satisfies [p]. *)
Definition last_such (p : pyval → bool) (elems : list pyval) : option pyval :=
  last (filter (λ e, p e = true) elems).

(** The elements of an optional argument sequence. *)
Definition sequence_elems (args : option pyval) : list pyval :=
  match args with
  | Some (VTuple l) | Some (VList l) => l
  | _ => []
  end.

(** ** Store-free counterparts of the loops of [transform] *)

(** Mapping a fallible function over columns, first error wins. *)
Fixpoint map_result_columns (f : Series → result Series) (cols : list Series)
    : result (list Series) :=
  match cols with
  | [] => Ok []
  | s :: rest =>
      rbind (f s) (λ s',
      rbind (map_result_columns f rest) (λ rest', Ok (s' :: rest')))
  end.

Section Counterparts.

Variable call : call_sem.
Variable map_infer : dtype → list pyval → Series.

(** The column that [Series.map] builds when every cell goes through the
    steps. *)
Definition mapped_series (steps : list step) (s : Series) : result Series :=
  rbind (map_result (composition call steps) (s_values s))
    (λ vs, Ok (map_infer (s_dtype s) vs)).

(** The dict [funcs] after the loop over [columns]. *)
Fixpoint collect_columns (steps : list step) (df : DataFrame)
    (columns : list label) (funcs : list (label * list Series))
    : result (list (label * list Series)) :=
  match columns with
  | [] => Ok funcs
  | col :: rest =>
      rbind (df_getitem df col) (λ cols,
      rbind (map_result_columns (mapped_series steps) cols) (λ cols',
      collect_columns steps df rest (dict_update funcs col cols')))
  end.

(** The mapped column where the map succeeds, the column itself
    otherwise. *)
Definition mapped_or_same (steps : list step) (s : Series) : Series :=
  match mapped_series steps s with
  | Ok s' => s'
  | Raise _ => s
  end.

(** The cells that the loop over [columns] visits, in the order of the
    visit: for each label of the list, the cells of every column of the
    frame that carries it. *)
Definition cells_of (df : DataFrame) (columns : list label) : list pyval :=
  columns ≫= (λ col, (filter (λ c, c.1 = col) df).*2 ≫= s_values).

(** The first error that [g] raises along a list, if any. *)
Fixpoint first_error {A B} (g : A → result B) (l : list A) : option exn :=
  match l with
  | [] => None
  | x :: rest =>
      match g x with
      | Raise e => Some e
      | Ok _ => first_error g rest
      end
  end.

(** The error that ends the loop over [columns], if any: the [KeyError]
    of a label that the frame lacks, or the first error of the steps on a
    cell. *)
Fixpoint loop_error (steps : list step) (df : DataFrame)
    (columns : list label) : option exn :=
  match columns with
  | [] => None
  | col :: rest =>
      if decide (col ∈ df_iter df) then
        match first_error (composition call steps) (cells_of df [col]) with
        | Some e => Some e
        | None => loop_error steps df rest
        end
      else Some (Exn KeyError (label_text col))
  end.

(** A frame like [df] except that every column with a label among
    [targets] is mapped. *)
Definition replace_targets (steps : list step) (targets : list label)
    (df : DataFrame) : DataFrame :=
  (λ c, if decide (c.1 ∈ targets) then (c.1, mapped_or_same steps c.2) else c)
    <$> df.

(** The value that the loop stores under a label: the mapped columns of
    that label. *)
Definition mapped_columns (steps : list step) (df : DataFrame) (col : label)
    : list Series :=
  mapped_or_same steps <$> (filter (λ c, c.1 = col) df).*2.

(** The dict of the loop with the given keys. *)
Definition loop_funcs (steps : list step) (df : DataFrame) (keys : list label)
    : list (label * list Series) :=
  (λ k, (k, mapped_columns steps df k)) <$> keys.

End Counterparts.

(** The keys of a dict after an update with the key [col]. *)
Definition add_key (keys : list label) (col : label) : list label :=
  if decide (col ∈ keys) then keys else keys ++ [col].


(** ** Example objects *)

(** A frame with an integer column and an object column. *)
Definition example_frame : DataFrame :=
  [(LStr "x", MkSeries DInt64 [VInt 1; VInt 2]);
   (LStr "label", MkSeries DObject [VStr "abc"; VStr "One"])].

(** A store with one transformer and the example frame, both at address 0. *)
Definition example_heap (t : StringTransformer) : heap :=
  MkHeap {[0 := t]} {[0 := example_frame]}.

(** The store after [StringTransformer()]; the new object is at address 0. *)
Definition fresh_transformer_heap : heap := (__init__ None empty_heap).1.

Definition hash_step : step := (VFunc FnHashString, [], []).

Definition replace_step : step :=
  (VFunc FnMultiReplace, [VDict [(VStr "a", VStr "b"); (VStr "b", VStr "c")]], []).

(** ** common_transforms.py: the remaining string functions *)

(** *** Character classes *)

Definition char_code (c : Ascii.ascii) : nat := Ascii.nat_of_ascii c.

Definition in_range (lo hi : nat) (c : Ascii.ascii) : bool :=
  (lo <=? char_code c)%nat && (char_code c <=? hi)%nat.

(** The uppercase characters below 256: [A-Z], and the Latin-1 capitals
    from 192 to 222 without the multiplication sign 215. *)
Definition is_upper (c : Ascii.ascii) : bool :=
  in_range 65 90 c || (in_range 192 222 c && negb (char_code c =? 215)%nat).

(** [str.lower] on one character: each uppercase character below 256 has
    its lowercase 32 places further. *)
Definition lower_char (c : Ascii.ascii) : Ascii.ascii :=
  if is_upper c then Ascii.ascii_of_nat (char_code c + 32) else c.

(** [str.lower] on a string of code points below 256, where it works
    character by character.  (On other code points [str.lower] can
    lengthen the string, or leave a character that counts as uppercase.) *)
Fixpoint str_lower (s : string) : string :=
  match s with
  | EmptyString => EmptyString
  | String c rest => String (lower_char c) (str_lower rest)
  end.

(** [snake_case(value)]: [value.lower().replace(" ", "_")] *)
Definition snake_case (value : pyval) : result pyval :=
  match value with
  | VStr s => py_replace (VStr (str_lower s)) (VStr " ") (VStr "_")
  | _ => Raise (Exn AttributeError "object has no attribute 'lower'")
  end.

(** [string.punctuation]: the 32 printable ASCII characters that are
    neither alphanumeric nor the space. *)
Definition punctuation : string :=
  String.string_of_list_ascii
    (map Ascii.ascii_of_nat (seq 33 15 ++ seq 58 7 ++ seq 91 6 ++ seq 123 4)).

(** [c in p] for two strings: [c] occurs in [p] as a substring. *)
Fixpoint str_contains (p c : string) : bool :=
  String.prefix c p ||
  match p with
  | EmptyString => false
  | String _ p' => str_contains p' c
  end.

(** Iterating over an object: the characters of a [str], the elements of
    a tuple or list, the keys of a dict. *)
Definition py_iter (v : pyval) : result (list pyval) :=
  match v with
  | VStr s => Ok (map (λ c, VStr (String c EmptyString)) (String.list_ascii_of_string s))
  | VTuple l | VList l => Ok l
  | VDict items => Ok items.*1
  | _ => Raise (Exn TypeError "object is not iterable")
  end.

(** One element of the generator of [strip_punctuation]:
    [c if c not in string.punctuation else replace]. *)
Definition strip_elem (replace c : pyval) : result pyval :=
  match c with
  | VStr cs => Ok (if str_contains punctuation cs then replace else c)
  | _ => Raise (Exn TypeError "'in <string>' requires string as left operand")
  end.

(** Joining with the empty separator: every item has to be a [str]. *)
Fixpoint py_join (items : list pyval) : result string :=
  match items with
  | [] => Ok EmptyString
  | VStr s :: rest => rbind (py_join rest) (λ r, Ok (s +:+ r))
  | _ :: _ => Raise (Exn TypeError "sequence item: expected str instance")
  end.

(** [strip_punctuation(value, replace="")] *)
Definition strip_punctuation (value replace : pyval) : result pyval :=
  rbind (py_iter value) (λ cs,
  rbind (map_result (strip_elem replace) cs) (λ items,
  rbind (py_join items) (λ r, Ok (VStr r)))).

(** The character classes of the pattern of [split_camel]. *)
Definition is_lower_digit (c : Ascii.ascii) : bool :=
  in_range 97 122 c || in_range 48 57 c.

Definition is_ascii_upper (c : Ascii.ascii) : bool := in_range 65 90 c.

(** A match of [([a-z0-9]+)([A-Z]{1})] at the start of [s], as the two
    groups.  The run is greedy: taking one more character is tried first,
    and only when that leads to no match the run ends here. *)
Fixpoint camel_match (s : list Ascii.ascii) : option (list Ascii.ascii * Ascii.ascii) :=
  match s with
  | [] => None
  | c :: rest =>
      if is_lower_digit c then
        match camel_match rest with
        | Some (run, u) => Some (c :: run, u)
        | None =>
            match rest with
            | u :: _ => if is_ascii_upper u then Some ([c], u) else None
            | [] => None
            end
        end
      else None
  end.

(** [re.sub] of that pattern with the template of group 1, a space and
    group 2: matches are looked for from the left and do not overlap; a
    character where no match starts is copied.  [skip] counts the
    characters of the last match still to be passed over. *)
Fixpoint camel_sub (skip : nat) (s : list Ascii.ascii) : list Ascii.ascii :=
  match s with
  | [] => []
  | c :: rest =>
      match skip with
      | S n => camel_sub n rest
      | O =>
          match camel_match (c :: rest) with
          | Some (run, u) => run ++ Ascii.Space :: u :: camel_sub (length run) rest
          | None => c :: camel_sub 0 rest
          end
      end
  end.

(** [split_camel(value)] *)
Definition split_camel (value : pyval) : result pyval :=
  match value with
  | VStr s =>
      Ok (VStr (String.string_of_list_ascii (camel_sub 0 (String.list_ascii_of_string s))))
  | _ => Raise (Exn TypeError "expected string or bytes-like object")
  end.

(** The function objects [FnUser 0], [FnUser 1] and [FnUser 2] as
    [snake_case], [strip_punctuation] and [split_camel]. *)
Definition package_user (n : nat) (args : list pyval) (kw : kwargs)
    : result pyval :=
  match n with
  | 0 =>
      rbind (bind_args [("value", None)] args kw) (λ bound,
        match bound with
        | [value] => snake_case value
        | _ => Raise (Exn TypeError "wrong number of arguments")
        end)
  | 1 =>
      rbind (bind_args [("value", None); ("replace", Some (VStr ""))] args kw)
        (λ bound,
           match bound with
           | [value; replace] => strip_punctuation value replace
           | _ => Raise (Exn TypeError "wrong number of arguments")
           end)
  | 2 =>
      rbind (bind_args [("value", None)] args kw) (λ bound,
        match bound with
        | [value] => split_camel value
        | _ => Raise (Exn TypeError "wrong number of arguments")
        end)
  | _ => Raise (Exn TypeError "object is not callable")
  end.

(** Calling the function objects of the package. *)
Definition package_call : call_sem := lib_call [] (λ _ _, []) package_user.

(** *** Reference definitions for the string functions *)

(** A space after every lowercase letter or digit that an uppercase
    letter follows. *)
Fixpoint camel_spaces (s : list Ascii.ascii) : list Ascii.ascii :=
  match s with
  | [] => []
  | c :: rest =>
      match rest with
      | u :: _ =>
          if is_lower_digit c && is_ascii_upper u
          then c :: Ascii.Space :: camel_spaces rest
          else c :: camel_spaces rest
      | [] => [c]
      end
  end.

(** Whether a character is one of [string.punctuation]. *)
Definition is_punct (c : Ascii.ascii) : bool :=
  str_contains punctuation (String c EmptyString).

(** The steps of a pipeline that pass the check of [add]. *)
Definition validated (call : call_sem) (s : step) : Prop :=
  _check_function call s.1.1 [] [] = Ok tt.

(** What [snake_case] makes of one character. *)
Definition snake_char (c : Ascii.ascii) : Ascii.ascii :=
  if Ascii.eqb (lower_char c) Ascii.Space then Ascii.ascii_of_nat 95
  else lower_char c.

(** What [strip_punctuation] makes of a string, character by character. *)
Fixpoint strip_chars (replace s : string) : string :=
  match s with
  | EmptyString => EmptyString
  | String c rest =>
      (if is_punct c then replace else String c EmptyString)
        +:+ strip_chars replace rest
  end.

(** The digits of a lowercase hexadecimal number. *)
Definition hex_chars : list Ascii.ascii :=
  String.list_ascii_of_string "0123456789abcdef".

(** *** Further example objects *)

Definition strip_step : step := (VFunc (FnUser 1), [], []).

Definition snake_step : step := (VFunc (FnUser 0), [], []).

(** Three transformers for the column "label": one that strips the
    punctuation, one that turns into snake case, one that does both in
    that order; and the example frame. *)
Definition stages_heap : heap :=
  MkHeap
    {[0 := MkStringTransformer (Some [LStr "label"]) [strip_step];
      1 := MkStringTransformer (Some [LStr "label"]) [snake_step];
      2 := MkStringTransformer (Some [LStr "label"]) [strip_step; snake_step]]}
    {[0 := example_frame]}.

(** Two transformers without steps that list the same columns in
    different order and with a repetition. *)
Definition orders_heap : heap :=
  MkHeap
    {[0 := MkStringTransformer (Some [LStr "label"; LStr "x"; LStr "label"]) [];
      1 := MkStringTransformer (Some [LStr "x"; LStr "label"]) []]}
    {[0 := example_frame]}.

(** A frame without a column of the object type. *)
Definition numeric_frame : DataFrame :=
  [(LStr "x", MkSeries DInt64 [VInt 1; VInt 2]);
   (LStr "flag", MkSeries DBool [VBool true; VBool false])].


(** A frame in which the label "label" stands on two columns. *)
Definition repeated_frame : DataFrame :=
  [(LStr "label", MkSeries DObject [VStr "abc"]);
   (LStr "x", MkSeries DInt64 [VInt 1]);
   (LStr "label", MkSeries DObject [VStr "One"])].

(** A frame built from rows, with the default integer labels. *)
Definition rows_frame : DataFrame :=
  [(LInt 0, MkSeries DObject [VStr "abc"]);
   (LInt 1, MkSeries DInt64 [VInt 1])].

(** A store with one transformer and one frame, both at address 0. *)
Definition frame_heap (t : StringTransformer) (df : DataFrame) : heap :=
  MkHeap {[0 := t]} {[0 := df]}.

(** * Verification *)

(** ** The monad *)

Lemma bind_ok {A B} (m : M A) (k : A → M B) h h' a :
  m h = (h', Ok a) → bind m k h = k a h'.
Proof. intros E. unfold bind. by rewrite E. Qed.

Lemma bind_raise {A B} (m : M A) (k : A → M B) h h' e :
  m h = (h', Raise e) → bind m k h = (h', Raise e).
Proof. intros E. unfold bind. by rewrite E. Qed.

Lemma bind_lift {A B} (r : result A) (k : A → M B) h :
  bind (lift r) k h = match r with Ok a => k a h | Raise e => (h, Raise e) end.
Proof. unfold bind, lift. by destruct r. Qed.

Lemma get_transformer_some self h t :
  transformers h !! self = Some t → get_transformer self h = (h, Ok t).
Proof. intros E. unfold get_transformer. by rewrite E. Qed.

Lemma get_frame_some X h df :
  frames h !! X = Some df → get_frame X h = (h, Ok df).
Proof. intros E. unfold get_frame. by rewrite E. Qed.

(** ** The per-value algorithm *)

Section ApplySteps.

Context (call : call_sem).

Lemma nested_application_snoc inner f a k s :
  nested_application call (inner ++ [(f, a, k)]) s =
  rbind (py_call call f (s :: a) k) (nested_application call inner).
Proof.
  induction inner as [|[[g b] j] inner IH]; simpl.
  - by destruct (py_call call f (s :: a) k).
  - rewrite IH. by destruct (py_call call f (s :: a) k).
Qed.

Lemma composition_cons f a k steps s :
  composition call ((f, a, k) :: steps) s =
  rbind (py_call call f (s :: a) k) (composition call steps).
Proof. unfold composition. simpl. apply nested_application_snoc. Qed.

Lemma composition_snoc steps f a k s :
  composition call (steps ++ [(f, a, k)]) s =
  rbind (composition call steps s) (λ v, py_call call f (v :: a) k).
Proof. unfold composition. by rewrite rev_unit. Qed.

Lemma composition_app pre post s :
  composition call (pre ++ post) s =
  rbind (composition call pre s) (composition call post).
Proof.
  revert s. induction pre as [|[[f a] k] pre IH]; intros s; simpl.
  - done.
  - rewrite !composition_cons.
    destruct (py_call call f (s :: a) k); simpl; [apply IH | done].
Qed.

(** The loop of [_apply_steps] computes the composition and leaves the
    store alone. *)
Lemma steps_loop_composition steps s h :
  for_loop steps
    (λ '(func, args, kw) value, lift (py_call call func (value :: args) kw))
    s h
  = (h, composition call steps s).
Proof.
  revert s. induction steps as [|[[f a] k] steps IH]; intros s; simpl.
  - done.
  - rewrite composition_cons, bind_lift.
    destruct (py_call call f (s :: a) k); simpl; [apply IH | done].
Qed.

Lemma apply_steps_run self h t s :
  transformers h !! self = Some t →
  _apply_steps call self s h = (h, composition call (_pipeline t) s).
Proof.
  intros Ht. unfold _apply_steps.
  rewrite (bind_ok _ _ _ _ _ (get_transformer_some _ _ _ Ht)).
  apply steps_loop_composition.
Qed.

(** C5.  For a transformer whose pipeline is [(f1,a1,k1), ..., (fn,an,kn)],
    [_apply_steps] returns the nested application
    [fn(... f2(f1(s, a1, k1), a2, k2) ..., an, kn)] and does not touch the
    store: the steps run in insertion order, each one receives the
    previous result as first positional argument followed by its own
    fixed arguments, and when a step raises after the earlier ones
    succeeded, that very exception is the outcome. *)
Theorem apply_steps_is_composition (self : loc) (h : heap)
    (t : StringTransformer) (s : pyval) :
  transformers h !! self = Some t →
  _apply_steps call self s h = (h, composition call (_pipeline t) s)
  ∧ composition call [] s = Ok s
  ∧ (∀ steps f a k,
       composition call (steps ++ [(f, a, k)]) s =
       rbind (composition call steps s) (λ v, py_call call f (v :: a) k))
  ∧ (∀ pre f a k post v e,
       _pipeline t = pre ++ (f, a, k) :: post →
       composition call pre s = Ok v →
       py_call call f (v :: a) k = Raise e →
       _apply_steps call self s h = (h, Raise e)).
Proof.
  intros Ht. split; [by apply apply_steps_run|].
  split; [done|]. split; [intros; apply composition_snoc|].
  intros pre f a k post v e Hp Hv He.
  rewrite (apply_steps_run _ _ _ _ Ht), Hp, composition_app, Hv. simpl.
  by rewrite composition_cons, He.
Qed.

End ApplySteps.

(** ** Registration of steps *)

Section Registration.

Context (call : call_sem).

Lemma check_function_spec func args kw :
  keyword_clash ["func"] kw.*1 = false →
  _check_function call func args kw =
  match func with
  | VFunc f =>
      match call f (VStr "test_string" :: args) kw with
      | Raise e =>
          if is_exception (exn_type e) then
            Raise (Exn ValueError "Supplied function does not work with strings!")
          else Raise e
      | Ok (VStr _) => Ok tt
      | Ok _ =>
          Raise (Exn ValueError "Supplied function does not return a string!")
      end
  | _ => Raise (Exn TypeError "Supplied function is not callable!")
  end.
Proof.
  intros Hk. unfold _check_function. rewrite Hk.
  destruct func; simpl; try done.
  destruct (call f _ kw) as [[]|e]; try done.
  simpl. by destruct (is_exception (exn_type e)).
Qed.

(** What [add] does: unless a keyword collides with a parameter of [add],
    the step is appended exactly when the check of [func] alone passes;
    otherwise the exception of the check is raised and the store is the
    one before the call. *)
Lemma add_spec self func args kw h t :
  transformers h !! self = Some t →
  add call self func args kw h =
  if keyword_clash ["self"; "func"] kw.*1 then
    (h, Raise (Exn TypeError "add() got multiple values for argument"))
  else
    match _check_function call func [] [] with
    | Ok _ =>
        (MkHeap
           (<[self := MkStringTransformer (_columns t)
                        (_pipeline t ++ [(func, args, kw)])]> (transformers h))
           (frames h), Ok tt)
    | Raise e => (h, Raise e)
    end.
Proof.
  intros Ht. unfold add.
  destruct (keyword_clash _ _); [done|]. rewrite bind_lift.
  destruct (_check_function call func [] []); [|done].
  unfold pipeline_append.
  by rewrite (bind_ok _ _ _ _ _ (get_transformer_some _ _ _ Ht)).
Qed.

Lemma last_such_snoc p elems x :
  last_such p (elems ++ [x]) = if p x then Some x else last_such p elems.
Proof.
  unfold last_such. rewrite filter_app, filter_cons, filter_nil.
  destruct (p x) eqn:E.
  - rewrite decide_True by done. apply last_snoc.
  - rewrite decide_False by (by intros ?). by rewrite app_nil_r.
Qed.

Lemma last_such_sat p elems x : last_such p elems = Some x → p x = true.
Proof.
  unfold last_such. intros H%last_Some_elem_of.
  by apply list_elem_of_filter in H as [? _].
Qed.

Lemma last_such_none p elems :
  (∀ e, e ∈ elems → p e = false) → last_such p elems = None.
Proof.
  intros H. unfold last_such.
  replace (filter (λ e, p e = true) elems) with (@nil pyval); [done|].
  symmetry. induction elems as [|x l IH]; [done|].
  rewrite filter_cons, decide_False.
  - apply IH. intros e He. apply H. by right.
  - rewrite (H x) by left. done.
Qed.

(** The loop over a step tuple keeps the last element of each kind. *)
Lemma scan_step_last elems :
  scan_step elems =
  (default VNone (last_such callable elems),
   default (VList []) (last_such isinstance_tuple_list elems),
   default (VDict []) (last_such isinstance_dict elems)).
Proof.
  induction elems as [|x elems IH] using rev_ind; [done|].
  unfold scan_step in *. rewrite fold_left_app. simpl. rewrite IH.
  rewrite !last_such_snoc. by destruct x.
Qed.

Lemma unpack_args_last elems :
  unpack_args (default (VList []) (last_such isinstance_tuple_list elems)) =
  Ok (sequence_elems (last_such isinstance_tuple_list elems)).
Proof.
  destruct (last_such isinstance_tuple_list elems) as [x|] eqn:E; [|done].
  apply last_such_sat in E. by destruct x.
Qed.

(** [__add__] on a tuple, in terms of the last element of each kind. *)
Lemma dunder_add_tuple self elems h :
  __add__ call self (VTuple elems) h =
  match last_such callable elems with
  | None => (h, Raise (Exn ValueError "No handler name specified."))
  | Some func =>
      (let* k := lift (unpack_kwargs
                         (default (VDict []) (last_such isinstance_dict elems))) in
       do add call self func
            (sequence_elems (last_such isinstance_tuple_list elems)) k in
       ret self) h
  end.
Proof.
  unfold __add__. simpl. rewrite scan_step_last.
  unfold bind at 1. unfold ret at 1.
  destruct (last_such callable elems) as [func|] eqn:Ef; simpl; [|done].
  apply last_such_sat in Ef. destruct func; try done. simpl.
  by rewrite bind_lift, unpack_args_last.
Qed.

Lemma dunder_add_returns_self self step h h' r :
  __add__ call self step h = (h', Ok r) → r = self.
Proof.
  unfold __add__, bind, ret, raise, lift.
  destruct (callable step), (isinstance_tuple step); simpl;
    repeat match goal with
    | |- context [match ?x with _ => _ end] => destruct x; simpl
    end; congruence.
Qed.

End Registration.

Section CompactEntryPoint.

Context (call : call_sem).

Lemma last_such_perm_singleton p elems l x :
  elems ≡ₚ l → filter (λ e, p e = true) l = [x] → last_such p elems = Some x.
Proof.
  intros Hp Hl. unfold last_such.
  assert (filter (λ e, p e = true) elems ≡ₚ [x]) as H by (by rewrite Hp, Hl).
  apply Permutation_singleton_r in H. by rewrite H.
Qed.

Lemma last_such_perm_nil p elems l :
  elems ≡ₚ l → filter (λ e, p e = true) l = [] → last_such p elems = None.
Proof.
  intros Hp Hl. unfold last_such.
  assert (filter (λ e, p e = true) elems ≡ₚ []) as H by (by rewrite Hp, Hl).
  apply Permutation_nil_r in H. by rewrite H.
Qed.

(** A tuple that combines one callable with at most one argument sequence
    and at most one dict, in whatever order. *)
Lemma step_tuple_any_order elems f oa od :
  elems ≡ₚ VFunc f :: option_list oa ++ option_list (VDict <$> od) →
  (∀ a, oa = Some a → isinstance_tuple_list a = true) →
  last_such callable elems = Some (VFunc f)
  ∧ last_such isinstance_tuple_list elems = oa
  ∧ last_such isinstance_dict elems = VDict <$> od.
Proof.
  intros Hp Ha.
  destruct oa as [a|]; [specialize (Ha a eq_refl)|clear Ha];
    destruct od as [d|]; simpl in Hp.
  - destruct a; try done;
      (split; [|split];
       [eapply last_such_perm_singleton | eapply last_such_perm_singleton
       | eapply last_such_perm_singleton]; try exact Hp; done).
  - destruct a; try done;
      (split; [|split];
       [eapply last_such_perm_singleton | eapply last_such_perm_singleton
       | eapply last_such_perm_nil]; try exact Hp; done).
  - split; [|split];
      [eapply last_such_perm_singleton | eapply last_such_perm_nil
      | eapply last_such_perm_singleton]; try exact Hp; done.
  - split; [|split];
      [eapply last_such_perm_singleton | eapply last_such_perm_nil
      | eapply last_such_perm_nil]; try exact Hp; done.
Qed.

(** C6.  [__add__] accepts a bare callable, or a tuple that combines a
    callable with an optional sequence of positional arguments and an
    optional dict of named arguments in any order, and then does what
    [add] does with the normalised step; an argument that is neither
    callable nor a tuple raises [TypeError], a tuple without a callable
    raises [ValueError], and whenever the call succeeds it returns the
    transformer object it was called on. *)
Theorem dunder_add_spec (self : loc) (step : pyval) (h : heap) :
  (∀ f, step = VFunc f →
     __add__ call self step h =
     (do add call self (VFunc f) [] [] in ret self) h)
  ∧ (∀ elems f oa od kw,
       step = VTuple elems →
       elems ≡ₚ VFunc f :: option_list oa ++ option_list (VDict <$> od) →
       (∀ a, oa = Some a → isinstance_tuple_list a = true) →
       unpack_items (default [] od) = Ok kw →
       __add__ call self step h =
       (do add call self (VFunc f) (sequence_elems oa) kw in ret self) h)
  ∧ (callable step = false → isinstance_tuple step = false →
       __add__ call self step h =
       (h, Raise (Exn TypeError "Can only add steps as callable or tuple.")))
  ∧ (∀ elems, step = VTuple elems →
       (∀ e, e ∈ elems → callable e = false) →
       __add__ call self step h =
       (h, Raise (Exn ValueError "No handler name specified.")))
  ∧ (∀ h' r, __add__ call self step h = (h', Ok r) → r = self).
Proof.
  repeat split.
  - intros f ->. done.
  - intros elems f oa od kw -> Hp Ha Hk.
    destruct (step_tuple_any_order _ _ _ _ Hp Ha) as (Hf & Hs & Hd).
    rewrite dunder_add_tuple, Hf, Hs, Hd, bind_lift.
    destruct od as [d|]; simpl in *; [by rewrite Hk | by injection Hk as <-].
  - intros Hc Ht. unfold __add__. by rewrite Hc, Ht.
  - intros elems -> Hn. by rewrite dunder_add_tuple, last_such_none.
  - intros h' r. apply dunder_add_returns_self.
Qed.

(** C10.  When a step tuple holds several callables, several dicts or
    several tuples/lists, [__add__] works with the last element of each
    kind: the scan ends with exactly those, the call is the registration of
    the last callable with the elements of the last tuple/list and the
    items of the last dict, and two tuples that agree on the last element
    of each kind are treated alike, so the earlier elements have no effect
    and raise nothing. *)
Theorem dunder_add_keeps_last (self : loc) (elems : list pyval) (h : heap) :
  scan_step elems =
    (default VNone (last_such callable elems),
     default (VList []) (last_such isinstance_tuple_list elems),
     default (VDict []) (last_such isinstance_dict elems))
  ∧ __add__ call self (VTuple elems) h =
    match last_such callable elems with
    | None => (h, Raise (Exn ValueError "No handler name specified."))
    | Some func =>
        (let* k := lift (unpack_kwargs
                           (default (VDict []) (last_such isinstance_dict elems))) in
         do add call self func
              (sequence_elems (last_such isinstance_tuple_list elems)) k in
         ret self) h
    end
  ∧ (∀ elems',
       last_such callable elems' = last_such callable elems →
       last_such isinstance_tuple_list elems' =
         last_such isinstance_tuple_list elems →
       last_such isinstance_dict elems' = last_such isinstance_dict elems →
       __add__ call self (VTuple elems') h = __add__ call self (VTuple elems) h).
Proof.
  split; [apply scan_step_last|]. split; [apply dunder_add_tuple|].
  intros elems' Hf Hs Hd. by rewrite !dunder_add_tuple, Hf, Hs, Hd.
Qed.

End CompactEntryPoint.

(** C1.  The check that [add] runs probes [func] with the test string
    alone.  Here [multi_replace] with the keyword [mapping] passes the
    check when the extra arguments are supplied to it, yet [add] raises
    [ValueError] and appends nothing; and [hash_string] with the extra
    positional argument "not_an_algo" fails the check with the arguments,
    yet [add] appends the step. *)
Theorem add_probes_without_arguments :
  transformers fresh_transformer_heap !! 0 = Some (MkStringTransformer None [])
  ∧ _check_function example_call (VFunc FnMultiReplace) []
      [("mapping", VDict [(VStr "a", VStr "b")])] = Ok tt
  ∧ add example_call 0 (VFunc FnMultiReplace) []
      [("mapping", VDict [(VStr "a", VStr "b")])] fresh_transformer_heap =
    (fresh_transformer_heap,
     Raise (Exn ValueError "Supplied function does not work with strings!"))
  ∧ _check_function example_call (VFunc FnHashString) [VStr "not_an_algo"] [] =
    Raise (Exn ValueError "Supplied function does not work with strings!")
  ∧ ((let* _ := add example_call 0 (VFunc FnHashString) [VStr "not_an_algo"] [] in
      list_steps 0) fresh_transformer_heap).2 =
    Ok [(VFunc FnHashString, [VStr "not_an_algo"], [])].
Proof. vm_compute. repeat split. Qed.

(** ** The library functions *)

Lemma multi_replace_loop_strings (rules : list (string * string)) s :
  multi_replace_loop (map (λ r, (VStr r.1, VStr r.2)) rules) (VStr s) =
  Ok (VStr (fold_left (λ acc r, str_replace acc r.1 r.2) rules s)).
Proof.
  revert s. induction rules as [|[old new] rules IH]; intros s; simpl; [done|].
  apply IH.
Qed.

(** C8.  [multi_replace] applies the pairs of the mapping one after the
    other in mapping order, each to the result of the one before, as
    literal substring replacements; so
    [multi_replace("abc", {"a": "b", "b": "c"})] is "ccc", while the same
    pairs in the other order give "bcc". *)
Theorem multi_replace_sequential :
  (∀ value, multi_replace value (VDict []) = Ok value)
  ∧ (∀ value search replace rest,
       multi_replace value (VDict ((search, replace) :: rest)) =
       rbind (py_replace value search replace)
         (λ v, multi_replace v (VDict rest)))
  ∧ (∀ s (rules : list (string * string)),
       multi_replace (VStr s) (VDict (map (λ r, (VStr r.1, VStr r.2)) rules)) =
       Ok (VStr (fold_left (λ acc r, str_replace acc r.1 r.2) rules s)))
  ∧ multi_replace (VStr "abc")
      (VDict [(VStr "a", VStr "b"); (VStr "b", VStr "c")]) = Ok (VStr "ccc")
  ∧ multi_replace (VStr "abc")
      (VDict [(VStr "b", VStr "c"); (VStr "a", VStr "b")]) = Ok (VStr "bcc")
  ∧ example_call FnMultiReplace
      [VStr "abc"; VDict [(VStr "a", VStr "b"); (VStr "b", VStr "c")]] [] =
    Ok (VStr "ccc")
  ∧ str_replace "a.c+a.c" "." "x" = "axc+axc"
  ∧ str_replace "abc" "." "x" = "abc".
Proof.
  split; [done|]. split; [done|].
  split; [intros; apply multi_replace_loop_strings|].
  repeat split.
Qed.

Section HashString.

Context (backend_names : list string) (other_digest : string → list Z → list Z).

Lemma guaranteed_available name :
  name ∈ algorithms_guaranteed → name ∈ algorithms_available backend_names.
Proof. intros H. unfold algorithms_available. apply elem_of_app. by left. Qed.

(** An unavailable name is the one cause of a [ValueError]. *)
Lemma hash_string_value_error_iff (value name : string) :
  (∃ msg, hash_string backend_names other_digest (VStr value) (VStr name) = Raise (Exn ValueError msg))
  ↔ name ∉ algorithms_available backend_names.
Proof.
  unfold hash_string. simpl.
  destruct (bool_decide (name ∈ algorithms_available backend_names)) eqn:E; simpl.
  - apply bool_decide_eq_true in E. split; [|done].
    intros [msg H]. exfalso. revert H.
    unfold hashlib_getattr, hexdigest.
    destruct (bool_decide (name ∈ algorithms_guaranteed)); simpl; [|done].
    destruct (bool_decide (name ∈ ["shake_128"; "shake_256"])); done.
  - apply bool_decide_eq_false in E. split; [done|]. intros _. eauto.
Qed.

(** For a constructor with a digest of fixed length the result is the
    lowercase hexadecimal digest of the UTF-8 encoding. *)
Lemma hash_string_fixed_length (value name : string) :
  name ∈ algorithms_guaranteed →
  name ∉ ["shake_128"; "shake_256"] →
  hash_string backend_names other_digest (VStr value) (VStr name) =
  Ok (VStr (hex_of_bytes (digest_bytes other_digest (MkHash name (encode_utf8 value))))).
Proof.
  intros Hg Hs. unfold hash_string. simpl.
  rewrite (bool_decide_eq_true_2 _ (guaranteed_available _ Hg)). simpl.
  unfold hashlib_getattr, hexdigest. simpl.
  rewrite (bool_decide_eq_true_2 _ Hg). simpl.
  by rewrite (bool_decide_eq_false_2 _ Hs).
Qed.

Lemma hash_string_abc :
  hash_string backend_names other_digest (VStr "abc") (VStr "sha1") =
  Ok (VStr "a9993e364706816aba3e25717850c26c9cd0d89d").
Proof.
  rewrite hash_string_fixed_length.
  - vm_compute. reflexivity.
  - vm_compute. do 2 constructor.
  - vm_compute. intros H.
    repeat (apply elem_of_cons in H as [H|H]; [discriminate H|]).
    by apply elem_of_nil in H.
Qed.

(** SHA-1 digests have 160 bits. *)
Lemma sha1_digest_length (msg : list Z) : length (SHA1.digest msg) = 20.
Proof.
  unfold SHA1.digest.
  destruct (fold_left SHA1.compress _ SHA1.init) as [[[[h0 h1] h2] h3] h4].
  rewrite !length_app. unfold SHA1.be_bytes.
  by rewrite !length_map, !length_rev, !length_seq.
Qed.

(** The default of the parameter [algorithm] is "sha1". *)
Lemma hash_string_default user value :
  lib_call backend_names other_digest user FnHashString [value] [] =
  hash_string backend_names other_digest value (VStr "sha1").
Proof. done. Qed.

(** A name that only the backend provides passes the availability test
    and then has no constructor in the module. *)
Lemma hash_string_backend_only (value name : string) :
  name ∈ backend_names →
  name ∉ algorithms_guaranteed →
  hash_string backend_names other_digest (VStr value) (VStr name) =
  Raise (Exn AttributeError "module 'hashlib' has no attribute").
Proof.
  intros Hb Hg. unfold hash_string. simpl.
  rewrite bool_decide_eq_true_2
    by (unfold algorithms_available; apply elem_of_app; by right).
  simpl. unfold hashlib_getattr. by rewrite (bool_decide_eq_false_2 _ Hg).
Qed.

(** C4.  "shake_128" is in the registry of algorithms_available backend_names algorithms on every
    runtime, and [hash_string] with it neither raises [ValueError] nor
    returns a digest: the call of [hexdigest] without a length raises
    [TypeError]. *)
Theorem hash_string_shake (value : string) :
  "shake_128" ∈ algorithms_available backend_names
  ∧ hash_string backend_names other_digest (VStr value) (VStr "shake_128") =
    Raise (Exn TypeError "hexdigest() missing required argument 'length'").
Proof.
  assert ("shake_128" ∈ algorithms_guaranteed) as Hg.
  { unfold algorithms_guaranteed. do 12 apply list_elem_of_further.
    apply list_elem_of_here. }
  split; [by apply guaranteed_available|].
  unfold hash_string. cbn [hashable negb].
  rewrite (bool_decide_eq_true_2 _ (guaranteed_available _ Hg)).
  cbn [negb]. unfold hashlib_getattr.
  rewrite (bool_decide_eq_true_2 _ Hg). done.
Qed.

End HashString.

(** ** Dictionaries and frames *)

Lemma forallb_same_elements {A} (p : A → bool) l1 l2 :
  (∀ x, x ∈ l1 ↔ x ∈ l2) → forallb p l1 = forallb p l2.
Proof.
  intros H. apply eq_true_iff_eq. rewrite !forallb_forall.
  split; intros Hp x Hx%list_elem_of_In; apply Hp, list_elem_of_In, H, Hx.
Qed.

Lemma add_key_elem keys col k : k ∈ add_key keys col ↔ k ∈ keys ∨ k = col.
Proof.
  unfold add_key. destruct (decide (col ∈ keys)) as [Hin|Hnin].
  - split; [by left|]. by intros [?| ->].
  - rewrite elem_of_app, list_elem_of_singleton. done.
Qed.

Lemma fold_add_key_elem columns keys k :
  k ∈ fold_left add_key columns keys ↔ k ∈ keys ∨ k ∈ columns.
Proof.
  revert keys. induction columns as [|c columns IH]; intros keys; simpl.
  - split; [by left|]. intros [?|H]; [done|]. by apply elem_of_nil in H.
  - rewrite IH, add_key_elem, elem_of_cons. tauto.
Qed.

Lemma df_iter_elem (df : DataFrame) col :
  col ∈ df_iter df ↔ ∃ s, (col, s) ∈ df.
Proof.
  unfold df_iter. rewrite list_elem_of_fmap. split.
  - intros [[n s] [-> Hin]]. by exists s.
  - intros [s Hin]. by exists (col, s).
Qed.

Lemma labelled_elem (df : DataFrame) col s :
  s ∈ (filter (λ c, c.1 = col) df).*2 ↔ (col, s) ∈ df.
Proof.
  rewrite list_elem_of_fmap. split.
  - intros [[n s'] [-> [Hn Hin]%list_elem_of_filter]]. simpl in Hn. by subst.
  - intros Hin. exists (col, s). split; [done|]. by apply list_elem_of_filter.
Qed.

(** [X[col]] is the selection of the columns with the label when there is
    one, and [KeyError] otherwise. *)
Lemma df_getitem_spec (df : DataFrame) col :
  df_getitem df col =
  if decide (col ∈ df_iter df) then Ok (filter (λ c, c.1 = col) df).*2
  else Raise (Exn KeyError (label_text col)).
Proof.
  unfold df_getitem.
  destruct (filter (λ c, c.1 = col) df) as [|c cs] eqn:E.
  - rewrite decide_False; [done|].
    intros [s Hs]%df_iter_elem. apply labelled_elem in Hs. rewrite E in Hs.
    by apply elem_of_nil in Hs.
  - rewrite decide_True; [done|].
    apply df_iter_elem. exists c.2. apply labelled_elem. rewrite E.
    rewrite fmap_cons. by left.
Qed.

Lemma set_labelled_fmap (f : label * Series → label * Series)
    (g : Series → Series) (df : DataFrame) k :
  (∀ c, (f c).1 = c.1) →
  set_labelled (f <$> df) k (g <$> (filter (λ c, c.1 = k) df).*2) =
  (λ c, if decide (c.1 = k) then (c.1, g c.2) else f c) <$> df.
Proof.
  intros Hf. induction df as [|[n s] df IH]; [done|].
  rewrite !fmap_cons, filter_cons. cbn [fst snd].
  pose proof (Hf (n, s)) as Hn. destruct (f (n, s)) as [n' s'] eqn:Ef.
  cbn [fst] in Hn. subst n'. cbn [set_labelled].
  destruct (decide (n = k)) as [->|Hne].
  - rewrite !fmap_cons. cbn [snd]. by rewrite IH.
  - by rewrite IH.
Qed.

Lemma labelled_length_fmap (f : label * Series → label * Series)
    (df : DataFrame) k :
  (∀ c, (f c).1 = c.1) →
  length (filter (λ c, c.1 = k) (f <$> df)) =
  length (filter (λ c, c.1 = k) df).
Proof.
  intros Hf. induction df as [|c df IH]; [done|].
  rewrite fmap_cons, !filter_cons, Hf.
  destruct (decide (c.1 = k)); simpl; by rewrite IH.
Qed.

(** Setting the mapped columns of a label that the frame has. *)
Lemma df_setitem_fmap (f : label * Series → label * Series)
    (g : Series → Series) (df : DataFrame) k :
  (∀ c, (f c).1 = c.1) →
  k ∈ df_iter df →
  df_setitem (f <$> df) k (g <$> (filter (λ c, c.1 = k) df).*2) =
  Ok ((λ c, if decide (c.1 = k) then (c.1, g c.2) else f c) <$> df).
Proof.
  intros Hf Hk. unfold df_setitem.
  assert (df_iter (f <$> df) = df_iter df) as ->.
  { unfold df_iter. rewrite <- list_fmap_compose. apply list_fmap_ext.
    intros i c _. apply Hf. }
  rewrite decide_True by done.
  rewrite decide_True by (by rewrite !length_fmap, labelled_length_fmap).
  by rewrite set_labelled_fmap.
Qed.

(** ** Applying the pipeline to a table *)

Section Transform.

Context (call : call_sem) (map_infer : dtype → list pyval → Series).

Lemma replace_targets_nil steps (df : DataFrame) :
  replace_targets call map_infer steps [] df = df.
Proof.
  unfold replace_targets. rewrite <- (list_fmap_id df) at 2.
  apply list_fmap_ext. intros i c _. rewrite decide_False; [done|].
  apply not_elem_of_nil.
Qed.

Lemma replace_targets_same_elements steps K1 K2 (df : DataFrame) :
  (∀ k, k ∈ K1 ↔ k ∈ K2) →
  replace_targets call map_infer steps K1 df =
  replace_targets call map_infer steps K2 df.
Proof.
  intros H. unfold replace_targets. apply list_fmap_ext. intros i c _.
  destruct (decide (c.1 ∈ K1)) as [H1|H1].
  - rewrite decide_True; [done|]. by apply H.
  - rewrite decide_False; [done|]. by rewrite <- H.
Qed.


(** The dict that the loop builds updates like its list of keys. *)
Lemma loop_funcs_update steps df keys col :
  dict_update (loop_funcs call map_infer steps df keys) col
    (mapped_columns call map_infer steps df col) =
  loop_funcs call map_infer steps df (add_key keys col).
Proof.
  unfold loop_funcs, add_key. induction keys as [|k keys IH]; [done|].
  rewrite fmap_cons. cbn [dict_update].
  destruct (decide (k = col)) as [->|Hne].
  - rewrite decide_True by left. done.
  - rewrite IH. destruct (decide (col ∈ keys)) as [Hin|Hnin].
    + rewrite decide_True by (by right). done.
    + rewrite decide_False; [done|].
      intros [?|?]%elem_of_cons; congruence.
Qed.

(** [assign] with the dict of the loop replaces, where they stand, the
    columns of every label among the keys by their mapped columns. *)
Lemma df_assign_cols_targets steps keys K (df : DataFrame) :
  (∀ k, k ∈ keys → k ∈ df_iter df) →
  df_assign_cols (replace_targets call map_infer steps K df)
    (loop_funcs call map_infer steps df keys) =
  Ok (replace_targets call map_infer steps (K ++ keys) df).
Proof.
  revert K. induction keys as [|k keys IH]; intros K Hin.
  - by rewrite app_nil_r.
  - unfold loop_funcs. rewrite fmap_cons. cbn [df_assign_cols].
    unfold replace_targets at 1, mapped_columns at 1.
    rewrite df_setitem_fmap; [| |apply Hin; left].
    2:{ intros c. by destruct (decide (c.1 ∈ K)). }
    cbn [rbind].
    replace ((λ c : label * Series,
               if decide (c.1 = k)
               then (c.1, mapped_or_same call map_infer steps c.2)
               else if decide (c.1 ∈ K)
                    then (c.1, mapped_or_same call map_infer steps c.2)
                    else c) <$> df)
      with (replace_targets call map_infer steps (K ++ [k]) df).
    + fold (loop_funcs call map_infer steps df keys).
      rewrite IH by (intros k' Hk'; apply Hin; by right).
      by rewrite <- app_assoc.
    + unfold replace_targets. apply list_fmap_ext. intros i c _.
      destruct (decide (c.1 = k)) as [Hk|Hk].
      * rewrite decide_True; [done|]. apply elem_of_app. right. rewrite Hk.
        by left.
      * destruct (decide (c.1 ∈ K)) as [HK|HK].
        -- rewrite decide_True; [done|]. apply elem_of_app. by left.
        -- rewrite decide_False; [done|].
           intros [?|?%list_elem_of_singleton]%elem_of_app; done.
Qed.

(** *** The first error of a loop *)

Lemma first_error_app {A B} (g : A → result B) l1 l2 :
  first_error g (l1 ++ l2) =
  match first_error g l1 with
  | Some e => Some e
  | None => first_error g l2
  end.
Proof.
  induction l1 as [|x l1 IH]; [done|]. simpl. by destruct (g x).
Qed.

Lemma first_error_None {A B} (g : A → result B) l :
  first_error g l = None ↔ ∀ x, x ∈ l → ∃ y, g x = Ok y.
Proof.
  induction l as [|x l IH]; simpl.
  - split; [|done]. by intros _ x ?%elem_of_nil.
  - destruct (g x) as [y|e] eqn:E.
    + rewrite IH. split.
      * intros H z [->|Hz]%elem_of_cons; [by exists y|by apply H].
      * intros H z Hz. apply H. by right.
    + split; [done|]. intros H. destruct (H x) as [y Hy]; [by left|].
      congruence.
Qed.

(** The first error is what [g] raises on an element before which no
    element raises. *)
Lemma first_error_Some {A B} (g : A → result B) l e :
  first_error g l = Some e ↔
  ∃ pre x post, l = pre ++ x :: post
    ∧ (∀ y, y ∈ pre → ∃ y', g y = Ok y') ∧ g x = Raise e.
Proof.
  induction l as [|x l IH]; simpl.
  - split; [done|]. intros (pre & x & post & H & _). by destruct pre.
  - destruct (g x) as [y|e0] eqn:E.
    + rewrite IH. split.
      * intros (pre & z & post & -> & Hp & Hz).
        exists (x :: pre), z, post. split; [done|]. split; [|done].
        intros w [->|Hw]%elem_of_cons; [by exists y|by apply Hp].
      * intros (pre & z & post & Hl & Hp & Hz).
        destruct pre as [|p pre]; simpl in Hl.
        -- injection Hl as -> ->. congruence.
        -- injection Hl as -> ->. exists pre, z, post.
           split; [done|]. split; [|done]. intros w Hw. apply Hp. by right.
    + split.
      * intros [= ->]. exists [], x, l. split; [done|]. split; [|done].
        by intros w ?%elem_of_nil.
      * intros (pre & z & post & Hl & Hp & Hz).
        destruct pre as [|p pre]; simpl in Hl.
        -- injection Hl as -> ->. congruence.
        -- injection Hl as -> ->. destruct (Hp p) as [y' Hy']; [by left|].
           congruence.
Qed.

Lemma cells_of_cons (df : DataFrame) col columns :
  cells_of df (col :: columns) = cells_of df [col] ++ cells_of df columns.
Proof. unfold cells_of. simpl. by rewrite app_nil_r. Qed.

Lemma cells_of_single (df : DataFrame) col :
  cells_of df [col] = (filter (λ c, c.1 = col) df).*2 ≫= s_values.
Proof. unfold cells_of. simpl. apply app_nil_r. Qed.

Lemma cells_of_app (df : DataFrame) pre post :
  cells_of df (pre ++ post) = cells_of df pre ++ cells_of df post.
Proof. unfold cells_of. apply bind_app. Qed.

Lemma cells_of_elem (df : DataFrame) columns v :
  v ∈ cells_of df columns ↔
  ∃ c s, c ∈ columns ∧ (c, s) ∈ df ∧ v ∈ s_values s.
Proof.
  unfold cells_of. rewrite list_elem_of_bind. split.
  - intros (c & [s [Hv Hs]]%list_elem_of_bind & Hc).
    apply labelled_elem in Hs. eauto.
  - intros (c & s & Hc & Hs & Hv). exists c. split; [|done].
    apply list_elem_of_bind. exists s. split; [done|]. by apply labelled_elem.
Qed.

Lemma loop_error_app steps df pre post :
  loop_error call steps df (pre ++ post) =
  match loop_error call steps df pre with
  | Some e => Some e
  | None => loop_error call steps df post
  end.
Proof.
  induction pre as [|c pre IH]; [done|]. simpl.
  destruct (decide (c ∈ df_iter df)); [|done].
  by destruct (first_error (composition call steps) _).
Qed.

(** As long as the labels are in the frame, the loop ends with the first
    error of the steps on the cells it visits. *)
Lemma loop_error_present steps df columns :
  (∀ c, c ∈ columns → c ∈ df_iter df) →
  loop_error call steps df columns =
  first_error (composition call steps) (cells_of df columns).
Proof.
  induction columns as [|c columns IH]; intros Hin; [done|].
  rewrite cells_of_cons, first_error_app. cbn [loop_error].
  rewrite decide_True by (apply Hin; left).
  destruct (first_error (composition call steps) (cells_of df [c])); [done|].
  apply IH. intros c' Hc'. apply Hin. by right.
Qed.

Lemma loop_error_None steps df columns :
  loop_error call steps df columns = None ↔
  (∀ c, c ∈ columns → c ∈ df_iter df)
  ∧ first_error (composition call steps) (cells_of df columns) = None.
Proof.
  split.
  - intros H.
    assert (∀ c, c ∈ columns → c ∈ df_iter df) as Hin.
    { clear -H. induction columns as [|c columns IH]; [by intros c ?%elem_of_nil|].
      simpl in H. destruct (decide (c ∈ df_iter df)); [|done].
      destruct (first_error (composition call steps) _); [done|].
      intros c' [->|Hc']%elem_of_cons; [done|by apply IH]. }
    split; [done|]. by rewrite <- loop_error_present.
  - intros [Hin H]. by rewrite loop_error_present.
Qed.

(** The loop stops at the first label that the frame lacks, unless the
    steps raise on a cell visited before. *)
Lemma loop_error_absent steps df pre c post :
  (∀ p, p ∈ pre → p ∈ df_iter df) →
  c ∉ df_iter df →
  loop_error call steps df (pre ++ c :: post) =
  Some (default (Exn KeyError (label_text c))
          (first_error (composition call steps) (cells_of df pre))).
Proof.
  intros Hpre Hc. rewrite loop_error_app, (loop_error_present _ _ _ Hpre).
  destruct (first_error (composition call steps) _); [done|]. simpl. by rewrite decide_False.
Qed.

(** *** The loops of [transform] *)

Lemma map_cells_run (f : pyval → M pyval) (g : pyval → result pyval) cells h :
  (∀ v, f v h = (h, g v)) → map_cells f cells h = (h, map_result g cells).
Proof.
  intros Hf. induction cells as [|v cells IH]; simpl; [done|].
  unfold bind at 1. rewrite Hf. destruct (g v); simpl; [|done].
  unfold bind at 1. rewrite IH. by destruct (map_result g cells).
Qed.

Lemma series_map_run self h t s :
  transformers h !! self = Some t →
  Series_map map_infer (_apply_steps call self) s h =
  (h, mapped_series call map_infer (_pipeline t) s).
Proof.
  intros Ht. unfold Series_map, mapped_series, bind.
  rewrite (map_cells_run _ (composition call (_pipeline t))).
  - by destruct (map_result _ _).
  - intros v. by apply apply_steps_run.
Qed.

Lemma map_columns_run (f : Series → M Series) (g : Series → result Series)
    cols h :
  (∀ s, f s h = (h, g s)) →
  map_columns f cols h = (h, map_result_columns g cols).
Proof.
  intros Hf. induction cols as [|s cols IH]; simpl; [done|].
  unfold bind at 1. rewrite Hf. destruct (g s); simpl; [|done].
  unfold bind at 1. rewrite IH. by destruct (map_result_columns g cols).
Qed.

Lemma column_loop_run self X h t df columns funcs :
  transformers h !! self = Some t →
  frames h !! X = Some df →
  for_loop columns
    (λ col funcs,
       let* df := get_frame X in
       let* cols := lift (df_getitem df col) in
       let* cols' := map_columns (Series_map map_infer (_apply_steps call self))
                       cols in
       ret (dict_update funcs col cols'))
    funcs h
  = (h, collect_columns call map_infer (_pipeline t) df columns funcs).
Proof.
  intros Ht HX. revert funcs.
  induction columns as [|col columns IH]; intros funcs; simpl; [done|].
  unfold bind at 1.
  rewrite (bind_ok _ _ _ _ _ (get_frame_some _ _ _ HX)), bind_lift.
  destruct (df_getitem df col) as [cols|e]; simpl; [|done].
  unfold bind at 1.
  rewrite (map_columns_run _ (mapped_series call map_infer (_pipeline t))).
  - destruct (map_result_columns _ _); simpl; [apply IH|done].
  - intros s. by apply series_map_run.
Qed.

(** [transform] in terms of the store-free loop. *)
Lemma transform_run self X h t df :
  transformers h !! self = Some t →
  frames h !! X = Some df →
  transform call map_infer self X h =
  match collect_columns call map_infer (_pipeline t) df (select_columns t df) []
  with
  | Ok funcs =>
      if negb (forallb is_str_label funcs.*1) then
        (h, Raise (Exn TypeError "keywords must be strings"))
      else if bool_decide (LStr "self" ∈ funcs.*1) then
        (h, Raise (Exn TypeError
                     "assign() got multiple values for argument 'self'"))
      else
        match df_assign_cols df funcs with
        | Ok data =>
            (MkHeap (transformers h)
               (<[fresh (dom (frames h)) := data]> (frames h)),
             Ok (fresh (dom (frames h))))
        | Raise e => (h, Raise e)
        end
  | Raise e => (h, Raise e)
  end.
Proof.
  intros Ht HX. unfold transform.
  rewrite (bind_ok _ _ _ _ _ (get_transformer_some _ _ _ Ht)).
  rewrite (bind_ok _ _ _ _ _ (get_frame_some _ _ _ HX)).
  unfold bind at 1. rewrite (column_loop_run _ _ _ _ _ _ _ Ht HX).
  destruct (collect_columns _ _ _ _ _ _) as [funcs|e]; [|done].
  unfold df_assign. destruct (negb _); [done|].
  destruct (bool_decide _); [done|].
  rewrite (bind_ok _ _ _ _ _ (get_frame_some _ _ _ HX)), bind_lift.
  by destruct (df_assign_cols df funcs).
Qed.


Lemma map_result_first_error (g : pyval → result pyval) cells :
  match first_error g cells with
  | Some e => map_result g cells = Raise e
  | None => ∃ vs, map_result g cells = Ok vs
  end.
Proof.
  induction cells as [|v cells IH]; simpl; [by eexists|].
  destruct (g v) as [v'|e]; simpl; [|done].
  destruct (first_error g cells) as [e|].
  - by rewrite IH.
  - destruct IH as [vs ->]. by eexists.
Qed.


(** A column maps to the column inferred from the results of the steps,
    unless the steps raise on a cell. *)
Lemma mapped_series_first_error steps s :
  mapped_series call map_infer steps s =
  match first_error (composition call steps) (s_values s) with
  | Some e => Raise e
  | None => Ok (mapped_or_same call map_infer steps s)
  end.
Proof.
  pose proof (map_result_first_error (composition call steps) (s_values s)) as H.
  destruct (first_error (composition call steps) _) as [e|].
  - unfold mapped_series. by rewrite H.
  - destruct H as [vs Hvs]. unfold mapped_or_same, mapped_series.
    by rewrite Hvs.
Qed.


Lemma map_result_columns_first_error steps cols :
  map_result_columns (mapped_series call map_infer steps) cols =
  match first_error (composition call steps) (cols ≫= s_values) with
  | Some e => Raise e
  | None => Ok (mapped_or_same call map_infer steps <$> cols)
  end.
Proof.
  induction cols as [|s cols IH]; [done|].
  cbn [map_result_columns]. rewrite bind_cons, first_error_app.
  rewrite mapped_series_first_error.
  destruct (first_error (composition call steps) (s_values s)); [done|].
  cbn [rbind].
  rewrite IH. by destruct (first_error (composition call steps) _).
Qed.

(** The loop over the columns, in closed form. *)
Lemma collect_columns_outcome steps df columns keys :
  collect_columns call map_infer steps df columns
    (loop_funcs call map_infer steps df keys) =
  match loop_error call steps df columns with
  | Some e => Raise e
  | None => Ok (loop_funcs call map_infer steps df (fold_left add_key columns keys))
  end.
Proof.
  revert keys. induction columns as [|c columns IH]; intros keys; [done|].
  cbn [collect_columns loop_error fold_left]. rewrite df_getitem_spec.
  destruct (decide (c ∈ df_iter df)); [|done]. cbn [rbind].
  rewrite map_result_columns_first_error.
  rewrite cells_of_single.
  destruct (first_error (composition call steps) _); [done|]. cbn [rbind].
  fold (mapped_columns call map_infer steps df c).
  rewrite loop_funcs_update. apply IH.
Qed.

(** [transform] in closed form: the error that ends the loop, or the
    refusal of a keyword by [assign], or a new frame in which the columns
    of the selected labels are mapped. *)
Lemma transform_outcome self X h t df :
  transformers h !! self = Some t →
  frames h !! X = Some df →
  transform call map_infer self X h =
  match loop_error call (_pipeline t) df (select_columns t df) with
  | Some e => (h, Raise e)
  | None =>
      if negb (forallb is_str_label (select_columns t df)) then
        (h, Raise (Exn TypeError "keywords must be strings"))
      else if bool_decide (LStr "self" ∈ select_columns t df) then
        (h, Raise (Exn TypeError
                     "assign() got multiple values for argument 'self'"))
      else
        (MkHeap (transformers h)
           (<[fresh (dom (frames h)) :=
                replace_targets call map_infer (_pipeline t)
                  (select_columns t df) df]> (frames h)),
         Ok (fresh (dom (frames h))))
  end.
Proof.
  intros Ht HX. rewrite (transform_run _ _ _ _ _ Ht HX).
  change (@nil (label * list Series))
    with (loop_funcs call map_infer (_pipeline t) df []).
  rewrite collect_columns_outcome.
  destruct (loop_error _ _ _ _) eqn:El; [done|].
  apply loop_error_None in El as [Hin _].
  set (keys := fold_left add_key (select_columns t df) []).
  assert (∀ k, k ∈ keys ↔ k ∈ select_columns t df) as Hkeys.
  { intros k. unfold keys. rewrite fold_add_key_elem. split; [|by right].
    intros [H|H]; [by apply elem_of_nil in H|done]. }
  assert ((loop_funcs call map_infer (_pipeline t) df keys).*1 = keys) as ->.
  { unfold loop_funcs. rewrite <- list_fmap_compose. apply list_fmap_id. }
  rewrite (forallb_same_elements _ _ _ Hkeys).
  destruct (negb _); [done|].
  rewrite (bool_decide_ext _ _ (Hkeys (LStr "self"))).
  destruct (bool_decide _); [done|].
  rewrite <- (replace_targets_nil (_pipeline t) df) at 1.
  rewrite df_assign_cols_targets by (intros k Hk; by apply Hin, Hkeys).
  rewrite app_nil_l.
  by rewrite (replace_targets_same_elements _ _ _ _ Hkeys).
Qed.

End Transform.

Section TransformTheorems.

Context (call : call_sem) (map_infer : dtype → list pyval → Series).

Lemma first_error_ext {A B} (g g' : A → result B) l :
  (∀ x, g x = g' x) → first_error g l = first_error g' l.
Proof.
  intros H. induction l as [|x l IH]; [done|]. simpl. by rewrite H, IH.
Qed.

(** The loop sees what [_apply_steps] returns in the store of the call. *)
Lemma first_error_apply_steps self h t cells :
  transformers h !! self = Some t →
  first_error (λ v, (_apply_steps call self v h).2) cells =
  first_error (composition call (_pipeline t)) cells.
Proof.
  intros Ht. apply first_error_ext. intros v.
  by rewrite (apply_steps_run _ _ _ _ _ Ht).
Qed.

Lemma fresh_frame_None (h : heap) : frames h !! fresh (dom (frames h)) = None.
Proof. apply not_elem_of_dom, is_fresh. Qed.

(** C2 (amended).  [transform] iterates over exactly the explicit column
    list when a non-empty one was given to the constructor; when none was
    given, or the one given is empty, it iterates over exactly the labels
    of the columns of the input whose declared type is the object type. *)
Theorem select_columns_spec (t : StringTransformer) (df : DataFrame) :
  (∀ l, _columns t = Some l → l ≠ [] → select_columns t df = l)
  ∧ (_columns t = None ∨ _columns t = Some [] →
     select_columns t df = (filter (λ c, s_dtype c.2 = DObject) df).*1
     ∧ ∀ name, name ∈ select_columns t df ↔
               ∃ s, (name, s) ∈ df ∧ s_dtype s = DObject).
Proof.
  split.
  - intros l Hl Hne. unfold select_columns. rewrite Hl.
    destruct l; [done|]. done.
  - intros Hc.
    assert (select_columns t df = (filter (λ c, s_dtype c.2 = DObject) df).*1)
      as Hs by (unfold select_columns; by destruct Hc as [-> | ->]).
    split; [done|]. intros name. rewrite Hs, list_elem_of_fmap. split.
    + intros [[n s] [-> [Hd Hin]%list_elem_of_filter]]. by exists s.
    + intros [s [Hin Hd]]. exists (name, s). split; [done|].
      by apply list_elem_of_filter.
Qed.


Lemma first_absent (l : list label) (names : list label) c :
  c ∈ l → c ∉ names →
  ∃ pre c' post, l = pre ++ c' :: post ∧ (∀ p, p ∈ pre → p ∈ names) ∧ c' ∉ names.
Proof.
  induction l as [|x l IH]; [by intros ?%elem_of_nil|].
  intros Hc Hn. destruct (decide (x ∈ names)) as [Hx|Hx].
  - destruct IH as (pre & c' & post & -> & Hpre & Hc'); [|done|].
    + apply elem_of_cons in Hc as [->|]; done.
    + exists (x :: pre), c', post. split; [done|]. split; [|done].
      intros p [->|]%elem_of_cons; auto.
  - exists [], x, l. split; [done|]. split; [|done]. by intros p ?%elem_of_nil.
Qed.

Lemma select_columns_explicit t df l pre c post :
  _columns t = Some l → l = pre ++ c :: post → select_columns t df = l.
Proof. intros Hl ->. unfold select_columns. rewrite Hl. by destruct pre. Qed.

(** C7 (amended).  When a column of the explicit list is not in the frame,
    [transform] raises and leaves the store as it was.  The list then
    splits at its first absent label [c]: the labels before [c] are in the
    frame.  The loop visits the cells of the columns with the labels
    before [c], label by label in list order; the exception is the one
    that [_apply_steps] raises on the first of these cells on which it
    raises, and [KeyError(c)] when it raises on none. *)
Theorem transform_missing_column (self X : loc) (h : heap)
    (t : StringTransformer) (df : DataFrame) (l : list label) :
  transformers h !! self = Some t →
  frames h !! X = Some df →
  _columns t = Some l →
  (∀ c, c ∈ l → c ∉ df_iter df →
     ∃ pre c0 post,
       l = pre ++ c0 :: post
       ∧ (∀ p, p ∈ pre → p ∈ df_iter df)
       ∧ c0 ∉ df_iter df)
  ∧ (∀ pre c post,
       l = pre ++ c :: post →
       (∀ p, p ∈ pre → p ∈ df_iter df) →
       c ∉ df_iter df →
       transform call map_infer self X h =
       (h, Raise
             (default (Exn KeyError (label_text c))
                (first_error (λ v, (_apply_steps call self v h).2)
                   (cells_of df pre))))).
Proof.
  intros Ht HX Hl. split.
  - intros c Hc Hn. by apply (first_absent l (df_iter df) c).
  - intros pre c post Hd Hpre Hc.
    rewrite (transform_outcome _ _ _ _ _ _ _ Ht HX).
    rewrite (select_columns_explicit _ _ _ _ _ _ Hl Hd), Hd.
    rewrite (loop_error_absent _ _ _ _ _ _ Hpre Hc).
    by rewrite (first_error_apply_steps _ _ _ _ Ht).
Qed.




End TransformTheorems.

(** ** The theorems at concrete inputs *)

(** The per-value algorithm on "abc" with the steps
    [multi_replace(mapping={"a": "b", "b": "c"})] and [hash_string]: the
    digest of "ccc". *)
Lemma apply_steps_is_composition_witness :
  transformers
    (example_heap (MkStringTransformer None [replace_step; hash_step])) !! 0 =
    Some (MkStringTransformer None [replace_step; hash_step])
  ∧ _apply_steps example_call 0 (VStr "abc")
      (example_heap (MkStringTransformer None [replace_step; hash_step])) =
    (example_heap (MkStringTransformer None [replace_step; hash_step]),
     hash_string [] (λ _ _, []) (VStr "ccc") (VStr "sha1")).
Proof.
  split; [reflexivity|].
  rewrite (proj1 (apply_steps_is_composition example_call 0
                    (example_heap (MkStringTransformer None [replace_step; hash_step]))
                    (MkStringTransformer None [replace_step; hash_step])
                    (VStr "abc") eq_refl)).
  vm_compute. reflexivity.
Defined.

(** A tuple with the dict before the callable. *)
Lemma dunder_add_spec_witness :
  [VDict [(VStr "algorithm", VStr "sha1")]; VFunc FnHashString] ≡ₚ
    VFunc FnHashString :: option_list None
      ++ option_list (VDict <$> Some [(VStr "algorithm", VStr "sha1")])
  ∧ __add__ example_call 0
      (VTuple [VDict [(VStr "algorithm", VStr "sha1")]; VFunc FnHashString])
      fresh_transformer_heap =
    (do add example_call 0 (VFunc FnHashString) [] [("algorithm", VStr "sha1")] in
     ret 0) fresh_transformer_heap.
Proof.
  assert ([VDict [(VStr "algorithm", VStr "sha1")]; VFunc FnHashString] ≡ₚ
          VFunc FnHashString :: option_list None
            ++ option_list (VDict <$> Some [(VStr "algorithm", VStr "sha1")]))
    as Hp by apply perm_swap.
  split; [exact Hp|].
  apply (proj1 (proj2 (dunder_add_spec example_call 0
           (VTuple [VDict [(VStr "algorithm", VStr "sha1")]; VFunc FnHashString])
           fresh_transformer_heap))
         _ FnHashString None (Some [(VStr "algorithm", VStr "sha1")])
         [("algorithm", VStr "sha1")] eq_refl Hp).
  - intros a Ha. discriminate Ha.
  - reflexivity.
Defined.

(** A tuple with two callables and two dicts: the later ones count. *)
Lemma dunder_add_keeps_last_witness :
  last_such callable
    [VFunc FnMultiReplace; VDict []; VFunc FnHashString;
     VDict [(VStr "algorithm", VStr "md5")]] = Some (VFunc FnHashString)
  ∧ __add__ example_call 0
      (VTuple [VFunc FnMultiReplace; VDict []; VFunc FnHashString;
               VDict [(VStr "algorithm", VStr "md5")]])
      fresh_transformer_heap =
    __add__ example_call 0
      (VTuple [VFunc FnHashString; VDict [(VStr "algorithm", VStr "md5")]])
      fresh_transformer_heap.
Proof.
  split; [reflexivity|].
  apply (proj2 (proj2 (dunder_add_keeps_last example_call 0
           [VFunc FnHashString; VDict [(VStr "algorithm", VStr "md5")]]
           fresh_transformer_heap))); reflexivity.
Defined.

(** C2, counterexample.  A transformer constructed with the empty column
    list does not target the empty list: it iterates over the object
    column of the frame and its cells are hashed. *)
Lemma select_columns_empty_list_counterexample :
  _columns (MkStringTransformer (Some []) [hash_step]) = Some []
  ∧ select_columns (MkStringTransformer (Some []) [hash_step]) example_frame
    = [LStr "label"]
  ∧ select_columns (MkStringTransformer (Some []) [hash_step]) example_frame
    ≠ []
  ∧ (let* r := transform example_call example_map_infer 0 0 in get_frame r)
      (example_heap (MkStringTransformer (Some []) [hash_step])) =
    (MkHeap {[0 := MkStringTransformer (Some []) [hash_step]]}
       (<[1 := [(LStr "x", MkSeries DInt64 [VInt 1; VInt 2]);
                (LStr "label",
                 MkSeries DObject
                   [VStr "a9993e364706816aba3e25717850c26c9cd0d89d";
                    VStr "b58b5a8ced9db48b30e008b148004c1065ce53b1"])]]>
          {[0 := example_frame]}),
     Ok [(LStr "x", MkSeries DInt64 [VInt 1; VInt 2]);
         (LStr "label",
          MkSeries DObject
            [VStr "a9993e364706816aba3e25717850c26c9cd0d89d";
             VStr "b58b5a8ced9db48b30e008b148004c1065ce53b1"])]).
Proof.
  split; [reflexivity|]. split; [reflexivity|]. split; [discriminate|].
  vm_compute. reflexivity.
Qed.

Lemma select_columns_spec_witness :
  _columns (MkStringTransformer (Some [LStr "x"]) []) = Some [LStr "x"]
  ∧ [LStr "x"] ≠ []
  ∧ select_columns (MkStringTransformer (Some [LStr "x"]) []) example_frame
    = [LStr "x"].
Proof.
  split; [reflexivity|]. split; [discriminate|].
  apply (proj1 (select_columns_spec (MkStringTransformer (Some [LStr "x"]) [])
                  example_frame) [LStr "x"]); [reflexivity|discriminate].
Defined.



(** C7, counterexample.  The explicit list names the absent column
    "missing" after the integer column "x"; [hash_string] raises on the
    first integer cell and that [AttributeError] is the outcome, not a
    [KeyError]. *)
Lemma transform_missing_column_counterexample :
  _columns (MkStringTransformer (Some [LStr "x"; LStr "missing"]) [hash_step]) =
    Some [LStr "x"; LStr "missing"]
  ∧ (LStr "missing" ∉ df_iter example_frame)
  ∧ _check_function example_call (VFunc FnHashString) [] [] = Ok tt
  ∧ transform example_call example_map_infer 0 0
      (example_heap
         (MkStringTransformer (Some [LStr "x"; LStr "missing"]) [hash_step])) =
    (example_heap
       (MkStringTransformer (Some [LStr "x"; LStr "missing"]) [hash_step]),
     Raise (Exn AttributeError "object has no attribute 'encode'"))
  ∧ exn_type (Exn AttributeError "object has no attribute 'encode'") ≠ KeyError.
Proof.
  split; [reflexivity|].
  split; [apply (bool_decide_unpack _); vm_compute; exact I|].
  split; [vm_compute; reflexivity|].
  split; [vm_compute; reflexivity|discriminate].
Qed.

(** The list "label", "missing" on the example frame: the steps succeed
    on the cells of "label", so the outcome is [KeyError("missing")]. *)
Lemma transform_missing_column_witness :
  transformers
    (example_heap
       (MkStringTransformer (Some [LStr "label"; LStr "missing"]) [hash_step]))
    !! 0 =
    Some (MkStringTransformer (Some [LStr "label"; LStr "missing"]) [hash_step])
  ∧ frames
      (example_heap
         (MkStringTransformer (Some [LStr "label"; LStr "missing"]) [hash_step]))
      !! 0 = Some example_frame
  ∧ (LStr "missing" ∉ df_iter example_frame)
  ∧ first_error
      (λ v, (_apply_steps example_call 0 v
               (example_heap
                  (MkStringTransformer (Some [LStr "label"; LStr "missing"])
                     [hash_step]))).2)
      (cells_of example_frame [LStr "label"]) = None
  ∧ transform example_call example_map_infer 0 0
      (example_heap
         (MkStringTransformer (Some [LStr "label"; LStr "missing"]) [hash_step])) =
    (example_heap
       (MkStringTransformer (Some [LStr "label"; LStr "missing"]) [hash_step]),
     Raise (Exn KeyError "missing")).
Proof.
  assert (LStr "missing" ∉ df_iter example_frame) as Hm.
  { apply (bool_decide_unpack _). vm_compute. exact I. }
  split; [reflexivity|]. split; [reflexivity|]. split; [exact Hm|].
  split; [vm_compute; reflexivity|].
  rewrite (proj2 (transform_missing_column example_call example_map_infer 0 0
                    (example_heap
                       (MkStringTransformer (Some [LStr "label"; LStr "missing"])
                          [hash_step]))
                    (MkStringTransformer (Some [LStr "label"; LStr "missing"])
                       [hash_step])
                    example_frame [LStr "label"; LStr "missing"]
                    eq_refl eq_refl eq_refl)
             [LStr "label"] (LStr "missing") [] eq_refl).
  - vm_compute. reflexivity.
  - intros p Hp. apply list_elem_of_singleton in Hp. subst p.
    apply (bool_decide_unpack _). vm_compute. exact I.
  - exact Hm.
Defined.



(** A label that stands on two columns: both columns are mapped, each
    where it stands. *)
Example transform_repeated_label :
  ((let* r := transform package_call example_map_infer 0 0 in get_frame r)
     (frame_heap (MkStringTransformer None [snake_step]) repeated_frame)).2 =
  Ok [(LStr "label", MkSeries DObject [VStr "abc"]);
      (LStr "x", MkSeries DInt64 [VInt 1]);
      (LStr "label", MkSeries DObject [VStr "one"])].
Proof. vm_compute. reflexivity. Qed.

(** Integer labels: the object column is mapped, and [assign] then refuses
    its label as a keyword. *)
Example transform_integer_label :
  select_columns (MkStringTransformer None [snake_step]) rows_frame = [LInt 0]
  ∧ transform package_call example_map_infer 0 0
      (frame_heap (MkStringTransformer None [snake_step]) rows_frame) =
    (frame_heap (MkStringTransformer None [snake_step]) rows_frame,
     Raise (Exn TypeError "keywords must be strings")).
Proof. split; [reflexivity|]. vm_compute. reflexivity. Qed.

(** * Further properties of the code *)

(** ** The string functions *)

Ltac each_char c :=
  destruct c as [[] [] [] [] [] [] [] []]; vm_compute; try done.

Lemma prefix_empty (s : string) : String.prefix EmptyString s = true.
Proof. by destruct s. Qed.

Lemma replace_scan_one_char (a b : Ascii.ascii) (s : string) :
  String.list_ascii_of_string
    (replace_scan (String a EmptyString) (String b EmptyString) 0 s) =
  (λ c, if Ascii.eqb c a then b else c) <$> String.list_ascii_of_string s.
Proof.
  induction s as [|c s IH]; [done|].
  cbn [replace_scan String.prefix String.length Nat.sub].
  destruct (Ascii.ascii_dec a c) as [->|Hne].
  - rewrite prefix_empty. simpl. rewrite Ascii.eqb_refl. f_equal. exact IH.
  - simpl. destruct (Ascii.eqb_spec c a) as [->|_]; [done|]. f_equal. exact IH.
Qed.

Lemma list_ascii_of_str_lower (s : string) :
  String.list_ascii_of_string (str_lower s) =
  lower_char <$> String.list_ascii_of_string s.
Proof. induction s as [|c s IH]; [done|]. simpl. by rewrite IH. Qed.

Lemma list_ascii_inj (s1 s2 : string) :
  String.list_ascii_of_string s1 = String.list_ascii_of_string s2 → s1 = s2.
Proof.
  intros H. rewrite <- (String.string_of_list_ascii_of_string s1),
    <- (String.string_of_list_ascii_of_string s2). by rewrite H.
Qed.

Lemma list_ascii_length (s : string) :
  length (String.list_ascii_of_string s) = String.length s.
Proof. induction s as [|c s IH]; [done|]. simpl. by rewrite IH. Qed.

(** [snake_case] on a string, character by character. *)
Lemma snake_case_chars (s : string) :
  ∃ r, snake_case (VStr s) = Ok (VStr r)
       ∧ String.list_ascii_of_string r =
         snake_char <$> String.list_ascii_of_string s.
Proof.
  eexists. split; [reflexivity|].
  unfold str_replace. rewrite replace_scan_one_char, list_ascii_of_str_lower.
  rewrite <- list_fmap_compose. apply list_fmap_ext. intros _ c _.
  unfold snake_char. simpl. done.
Qed.

(** X1.  The result of [snake_case] on a string holds neither a space
    nor one of the letters A to Z. *)
Theorem snake_case_no_space_no_upper (s : string) :
  ∃ r, snake_case (VStr s) = Ok (VStr r)
       ∧ ∀ c, c ∈ String.list_ascii_of_string r →
              c ≠ Ascii.Space ∧ is_ascii_upper c = false.
Proof.
  destruct (snake_case_chars s) as (r & Hr & Hc). exists r.
  split; [done|].
  intros c. rewrite Hc. intros (c0 & -> & _)%list_elem_of_fmap.
  clear. each_char c0.
Qed.

(** X2.  [snake_case] is idempotent: on any object, applying it to its own
    result gives that result again, and an exception stays the
    exception. *)
Theorem snake_case_idempotent (value : pyval) :
  rbind (snake_case value) snake_case = snake_case value.
Proof.
  destruct value; try done.
  destruct (snake_case_chars s) as (r & Hr & Hc). rewrite Hr. cbn [rbind].
  destruct (snake_case_chars r) as (r' & Hr' & Hc'). rewrite Hr'.
  do 2 f_equal. apply list_ascii_inj. rewrite Hc', Hc, <- list_fmap_compose.
  apply list_fmap_ext. intros _ c _. simpl. clear. each_char c.
Qed.

Lemma list_ascii_app (a b : string) :
  String.list_ascii_of_string (a +:+ b) =
  String.list_ascii_of_string a ++ String.list_ascii_of_string b.
Proof. induction a as [|c a IH]; [done|]. simpl. by rewrite IH. Qed.

Lemma strip_items (r s : string) :
  map_result (strip_elem (VStr r))
    (map (λ c, VStr (String c EmptyString)) (String.list_ascii_of_string s)) =
  Ok (map (λ c, VStr (if is_punct c then r else String c EmptyString))
        (String.list_ascii_of_string s)).
Proof.
  induction s as [|c s IH]; [done|].
  cbn [String.list_ascii_of_string map map_result]. rewrite IH.
  unfold strip_elem, is_punct.
  by destruct (str_contains punctuation (String c EmptyString)).
Qed.

Lemma join_items (r s : string) :
  py_join (map (λ c, VStr (if is_punct c then r else String c EmptyString))
             (String.list_ascii_of_string s)) =
  Ok (strip_chars r s).
Proof.
  induction s as [|c s IH]; [done|].
  cbn [String.list_ascii_of_string map py_join strip_chars]. by rewrite IH.
Qed.

(** [strip_punctuation] on a string with a string as replacement. *)
Lemma strip_punctuation_str (s r : string) :
  strip_punctuation (VStr s) (VStr r) = Ok (VStr (strip_chars r s)).
Proof.
  unfold strip_punctuation. cbn [py_iter rbind].
  rewrite strip_items. cbn [rbind]. by rewrite join_items.
Qed.

Lemma strip_chars_default (s : string) :
  String.list_ascii_of_string (strip_chars EmptyString s) =
  filter (λ c, is_punct c = false) (String.list_ascii_of_string s).
Proof.
  induction s as [|c s IH]; [done|].
  cbn [strip_chars String.list_ascii_of_string]. rewrite filter_cons.
  destruct (is_punct c) eqn:E.
  - rewrite decide_False by done. exact IH.
  - rewrite decide_True by done. simpl. f_equal. exact IH.
Qed.

(** X3.  When the replacement holds no punctuation character,
    [strip_punctuation] returns a string without any punctuation
    character. *)
Theorem strip_punctuation_removes_all (s r : string) :
  (∀ c, c ∈ String.list_ascii_of_string r → is_punct c = false) →
  ∃ out, strip_punctuation (VStr s) (VStr r) = Ok (VStr out)
         ∧ ∀ c, c ∈ String.list_ascii_of_string out → is_punct c = false.
Proof.
  intros Hr. exists (strip_chars r s). split; [apply strip_punctuation_str|].
  induction s as [|c0 s IH]; [by intros c ?%elem_of_nil|].
  intros c. cbn [strip_chars]. rewrite list_ascii_app.
  intros [Hc|Hc]%elem_of_app; [|by apply IH].
  destruct (is_punct c0) eqn:E; [by apply Hr|].
  apply list_elem_of_singleton in Hc. by subst.
Qed.

(** X4.  Called with the default replacement, [strip_punctuation] returns
    the characters of the input that are not punctuation, in their order;
    applied to its own result it changes nothing. *)
Theorem strip_punctuation_default (s : string) :
  ∃ out, package_call (FnUser 1) [VStr s] [] = Ok (VStr out)
         ∧ String.list_ascii_of_string out =
           filter (λ c, is_punct c = false) (String.list_ascii_of_string s)
         ∧ package_call (FnUser 1) [VStr out] [] = Ok (VStr out).
Proof.
  assert (∀ x, package_call (FnUser 1) [VStr x] [] =
               strip_punctuation (VStr x) (VStr EmptyString)) as Hcall by done.
  exists (strip_chars EmptyString s). rewrite !Hcall, !strip_punctuation_str.
  split; [done|]. split; [apply strip_chars_default|].
  do 2 f_equal. apply list_ascii_inj. rewrite !strip_chars_default.
  apply list_filter_filter_l. done.
Qed.

Lemma strip_punctuation_removes_all_witness :
  (∀ c, c ∈ String.list_ascii_of_string " " → is_punct c = false)
  ∧ ∃ out, strip_punctuation (VStr "a,b.c!") (VStr " ") = Ok (VStr out)
           ∧ ∀ c, c ∈ String.list_ascii_of_string out → is_punct c = false.
Proof.
  assert (∀ c, c ∈ String.list_ascii_of_string " " → is_punct c = false) as H.
  { intros c Hc. apply list_elem_of_singleton in Hc. subst c. reflexivity. }
  split; [exact H|]. exact (strip_punctuation_removes_all "a,b.c!" " " H).
Defined.

Lemma lower_digit_not_upper c : is_lower_digit c = true → is_ascii_upper c = false.
Proof. each_char c. Qed.

Lemma upper_not_lower_digit c : is_ascii_upper c = true → is_lower_digit c = false.
Proof. each_char c. Qed.

Lemma camel_match_Some (s run : list Ascii.ascii) (u : Ascii.ascii) :
  camel_match s = Some (run, u) →
  ∃ c run1 tail,
    run = c :: run1 ∧ s = run ++ u :: tail
    ∧ Forall (λ x, is_lower_digit x = true) run ∧ is_ascii_upper u = true.
Proof.
  revert run u. induction s as [|c rest IH]; intros run u; [done|].
  cbn [camel_match]. destruct (is_lower_digit c) eqn:Ec; [|done].
  destruct (camel_match rest) as [[run' u']|] eqn:Em.
  - intros [= <- <-].
    destruct (IH _ _ eq_refl) as (c1 & run1 & tail & -> & -> & Hall & Hu).
    exists c, (c1 :: run1), tail. split; [done|]. split; [done|].
    split; [by constructor|done].
  - destruct rest as [|u0 tail]; [done|].
    destruct (is_ascii_upper u0) eqn:Eu; [|done]. intros [= <- <-].
    exists c, [], tail. split; [done|]. split; [done|].
    split; [by repeat constructor|done].
Qed.

Lemma camel_match_pair c u tail :
  is_lower_digit c = true → is_ascii_upper u = true →
  camel_match (c :: u :: tail) = Some ([c], u).
Proof.
  intros Hc Hu. cbn [camel_match].
  by rewrite Hc, (upper_not_lower_digit _ Hu), Hu.
Qed.

Lemma camel_sub_skip (pre b : list Ascii.ascii) : camel_sub (length pre) (pre ++ b) = camel_sub 0 b.
Proof. induction pre as [|x pre IH]; [done|]. exact IH. Qed.

Lemma camel_spaces_upper u tail :
  is_ascii_upper u = true → camel_spaces (u :: tail) = u :: camel_spaces tail.
Proof.
  intros Hu. cbn [camel_spaces]. destruct tail; [done|].
  by rewrite (upper_not_lower_digit _ Hu).
Qed.

Lemma camel_spaces_run c run1 u tail :
  Forall (λ x, is_lower_digit x = true) (c :: run1) →
  is_ascii_upper u = true →
  camel_spaces ((c :: run1) ++ u :: tail) =
  (c :: run1) ++ Ascii.Space :: u :: camel_spaces tail.
Proof.
  intros Hall Hu. revert c Hall. induction run1 as [|c2 run1 IH]; intros c Hall.
  - apply Forall_cons in Hall as [Hc _].
    change (camel_spaces (c :: u :: tail) =
            c :: Ascii.Space :: u :: camel_spaces tail).
    rewrite <- (camel_spaces_upper _ _ Hu). cbn [camel_spaces].
    by rewrite Hc, Hu.
  - apply Forall_cons in Hall as [Hc Hall].
    pose proof Hall as [Hc2 _]%Forall_cons.
    change (camel_spaces (c :: (c2 :: run1) ++ u :: tail) =
            c :: (c2 :: run1) ++ Ascii.Space :: u :: camel_spaces tail).
    rewrite <- (IH _ Hall).
    change ((c2 :: run1) ++ u :: tail) with (c2 :: (run1 ++ u :: tail)).
    cbn [camel_spaces]. rewrite (lower_digit_not_upper _ Hc2).
    by rewrite andb_false_r.
Qed.

Lemma camel_sub_spaces_bounded (n : nat) (s : list Ascii.ascii) :
  (length s ≤ n)%nat → camel_sub 0 s = camel_spaces s.
Proof.
  revert s. induction n as [|n IH]; intros s Hn.
  - destruct s; [done|]. simpl in Hn. lia.
  - destruct s as [|c rest]; [done|]. cbn [camel_sub].
    destruct (camel_match (c :: rest)) as [[run u]|] eqn:Em.
    + destruct (camel_match_Some _ _ _ Em) as (c1 & run1 & tail & -> & Hs & Hall & Hu).
      injection Hs as <- ->.
      change (camel_spaces (c :: run1 ++ u :: tail))
        with (camel_spaces ((c :: run1) ++ u :: tail)).
      rewrite (camel_spaces_run _ _ _ _ Hall Hu).
      replace (length (c :: run1)) with (length (run1 ++ [u]))
        by (rewrite length_app; simpl; lia).
      replace (run1 ++ u :: tail) with ((run1 ++ [u]) ++ tail)
        by (by rewrite <- app_assoc).
      rewrite camel_sub_skip, IH; [done|].
      simpl in Hn. rewrite length_app in Hn. simpl in Hn. lia.
    + rewrite IH by (simpl in Hn; lia).
      destruct rest as [|u tail]; [done|]. cbn [camel_spaces].
      destruct (is_lower_digit c) eqn:Ec; [|done].
      destruct (is_ascii_upper u) eqn:Eu; [|done].
      by rewrite (camel_match_pair _ _ _ Ec Eu) in Em.
Qed.

Lemma camel_spaces_head c rest :
  ∃ rest', camel_spaces (c :: rest) = c :: rest'.
Proof.
  cbn [camel_spaces]. destruct rest as [|u t]; [by eexists|].
  destruct (is_lower_digit c && is_ascii_upper u); by eexists.
Qed.

Lemma camel_spaces_cons2 c u t :
  camel_spaces (c :: u :: t) =
  if is_lower_digit c && is_ascii_upper u
  then c :: Ascii.Space :: camel_spaces (u :: t)
  else c :: camel_spaces (u :: t).
Proof. done. Qed.

Lemma camel_spaces_idempotent (s : list Ascii.ascii) :
  camel_spaces (camel_spaces s) = camel_spaces s.
Proof.
  induction s as [|c rest IH]; [done|].
  destruct rest as [|u t]; [done|].
  destruct (camel_spaces_head u t) as [r' Hr'].
  rewrite (camel_spaces_cons2 c u t).
  remember (camel_spaces (u :: t)) as R eqn:HR. clear HR.
  destruct (is_lower_digit c && is_ascii_upper u) eqn:E.
  - rewrite camel_spaces_cons2.
    change (is_ascii_upper Ascii.Space) with false. rewrite andb_false_r.
    subst R. rewrite camel_spaces_cons2.
    change (is_lower_digit Ascii.Space) with false. cbn [andb].
    by rewrite IH.
  - subst R. rewrite camel_spaces_cons2, E. by rewrite IH.
Qed.

Lemma camel_spaces_letters (s : list Ascii.ascii) :
  filter (λ c, c ≠ Ascii.Space) (camel_spaces s) =
  filter (λ c, c ≠ Ascii.Space) s.
Proof.
  induction s as [|c rest IH]; [done|].
  destruct rest as [|u t]; [done|].
  cbn [camel_spaces] in *.
  destruct (is_lower_digit c && is_ascii_upper u).
  - rewrite (filter_cons _ c), (filter_cons _ Ascii.Space), (filter_cons _ c (u :: t)).
    rewrite (decide_False (P := Ascii.Space ≠ Ascii.Space)) by (by intros ?).
    by rewrite IH.
  - rewrite (filter_cons _ c), (filter_cons _ c (u :: t)). by rewrite IH.
Qed.

Lemma camel_sub_spaces (s : list Ascii.ascii) : camel_sub 0 s = camel_spaces s.
Proof. by apply (camel_sub_spaces_bounded _ _ (le_n _)). Qed.

(** X5.  [split_camel] on a string puts one space between every lowercase
    letter or digit and an uppercase letter that follows it directly, and
    changes nothing else. *)
Theorem split_camel_spaces (s : string) :
  split_camel (VStr s) =
  Ok (VStr (String.string_of_list_ascii
              (camel_spaces (String.list_ascii_of_string s)))).
Proof.
  unfold split_camel. by rewrite camel_sub_spaces.
Qed.

(** X6.  The result of [split_camel] has the characters of the input with
    only spaces added, and applying [split_camel] to it changes
    nothing. *)
Theorem split_camel_idempotent (s : string) :
  ∃ r, split_camel (VStr s) = Ok (VStr r)
       ∧ filter (λ c, c ≠ Ascii.Space) (String.list_ascii_of_string r) =
         filter (λ c, c ≠ Ascii.Space) (String.list_ascii_of_string s)
       ∧ split_camel (VStr r) = Ok (VStr r).
Proof.
  eexists. split; [reflexivity|]. unfold split_camel.
  rewrite !String.list_ascii_of_string_of_list_ascii, !camel_sub_spaces.
  split; [apply camel_spaces_letters|]. by rewrite camel_spaces_idempotent.
Qed.

(** X7.  A mapping that lists the pairs of [m1] and then those of [m2]
    acts like [multi_replace] with [m1] followed by [multi_replace] with
    [m2] on its result; an exception of the first part is the outcome. *)
Theorem multi_replace_mapping_app (value : pyval) (m1 m2 : list (pyval * pyval)) :
  multi_replace value (VDict (m1 ++ m2)) =
  rbind (multi_replace value (VDict m1)) (λ v, multi_replace v (VDict m2)).
Proof.
  simpl. revert value. induction m1 as [|[a b] m1 IH]; intros value; [done|].
  simpl. destruct (py_replace value a b); simpl; [apply IH|done].
Qed.

Lemma str_replace_absent (s old new : string) :
  str_contains s old = false → str_replace s old new = s.
Proof.
  destruct old as [|a old].
  { destruct s; simpl; done. }
  unfold str_replace. induction s as [|c s IH]; [done|].
  cbn [str_contains replace_scan].
  intros [Hp Hs]%orb_false_elim. rewrite Hp. f_equal. by apply IH.
Qed.

(** X8.  When none of the search strings of the mapping occurs in the
    input string, [multi_replace] returns the input unchanged. *)
Theorem multi_replace_absent (s : string) (rules : list (string * string)) :
  (∀ r, r ∈ rules → str_contains s r.1 = false) →
  multi_replace (VStr s) (VDict (map (λ r, (VStr r.1, VStr r.2)) rules)) =
  Ok (VStr s).
Proof.
  simpl. induction rules as [|[a b] rules IH]; intros H; [done|].
  simpl. rewrite str_replace_absent by (apply (H (a, b)); left).
  apply IH. intros r Hr. apply H. by right.
Qed.

Lemma multi_replace_absent_witness :
  (∀ r, r ∈ [("x", "y"); ("bd", "z")] → str_contains "abc" r.1 = false)
  ∧ multi_replace (VStr "abc")
      (VDict (map (λ r, (VStr r.1, VStr r.2)) [("x", "y"); ("bd", "z")])) =
    Ok (VStr "abc").
Proof.
  assert (∀ r, r ∈ [("x", "y"); ("bd", "z")] → str_contains "abc" r.1 = false)
    as H.
  { intros r Hr. apply elem_of_cons in Hr as [->|Hr]; [reflexivity|].
    apply list_elem_of_singleton in Hr. subst r. reflexivity. }
  split; [exact H|]. exact (multi_replace_absent "abc" _ H).
Defined.

(** X9.  Called without a mapping, [multi_replace] raises
    [AttributeError] on every value; and since [add] probes the function
    with the test string alone, [add] never registers [multi_replace],
    whatever extra arguments come with it: it raises [ValueError] or
    [TypeError] and the store is as before. *)
Theorem multi_replace_needs_mapping (backend_names : list string)
    (other_digest : string → list Z → list Z)
    (user_call : nat → list pyval → kwargs → result pyval) :
  (∀ value,
     lib_call backend_names other_digest user_call FnMultiReplace [value] [] =
     Raise (Exn AttributeError "object has no attribute 'items'"))
  ∧ ∀ self args kw h,
      ∃ e, add (lib_call backend_names other_digest user_call) self
             (VFunc FnMultiReplace) args kw h = (h, Raise e)
           ∧ (exn_type e = ValueError ∨ exn_type e = TypeError).
Proof.
  split; [done|]. intros self args kw h. unfold add.
  destruct (keyword_clash _ _).
  - eexists. split; [done|]. by right.
  - eexists. split; [done|]. by left.
Qed.

Lemma hex_of_bytes_length (bs : list Z) :
  String.length (hex_of_bytes bs) = 2 * length bs.
Proof. induction bs as [|b bs IH]; [done|]. simpl. rewrite IH. lia. Qed.

Lemma hex_digit_in (n : Z) : (0 ≤ n < 16)%Z → hex_digit n ∈ hex_chars.
Proof.
  intros Hn.
  assert (n ∈ (Z.of_nat <$> seq 0 16)) as Hin.
  { apply list_elem_of_fmap. exists (Z.to_nat n). split; [lia|].
    apply list_elem_of_In, in_seq. lia. }
  simpl in Hin.
  repeat (apply elem_of_cons in Hin as [->|Hin];
          [apply list_elem_of_In; vm_compute; tauto|]).
  by apply elem_of_nil in Hin.
Qed.

Lemma hex_of_bytes_chars (bs : list Z) :
  Forall (λ b, (0 ≤ b < 256)%Z) bs →
  ∀ c, c ∈ String.list_ascii_of_string (hex_of_bytes bs) → c ∈ hex_chars.
Proof.
  induction 1 as [|b bs Hb _ IH]; [by intros c ?%elem_of_nil|].
  intros c. cbn [hex_of_bytes String.list_ascii_of_string].
  intros [->|[->|Hc]%elem_of_cons]%elem_of_cons; [| |by apply IH].
  - apply hex_digit_in. rewrite Z.shiftr_div_pow2 by lia.
    split; [apply Z.div_pos; lia|apply Z.div_lt_upper_bound; lia].
  - apply hex_digit_in. change 15%Z with (Z.ones 4).
    rewrite Z.land_ones by lia. apply Z.mod_pos_bound. lia.
Qed.

Lemma be_bytes_range (n : nat) (x : Z) :
  Forall (λ b, (0 ≤ b < 256)%Z) (SHA1.be_bytes n x).
Proof.
  unfold SHA1.be_bytes. apply List.Forall_map, List.Forall_forall.
  intros i _. change 255%Z with (Z.ones 8). rewrite Z.land_ones by lia.
  apply Z.mod_pos_bound. lia.
Qed.

Lemma sha1_digest_range (msg : list Z) :
  Forall (λ b, (0 ≤ b < 256)%Z) (SHA1.digest msg).
Proof.
  unfold SHA1.digest.
  destruct (fold_left SHA1.compress _ SHA1.init) as [[[[h0 h1] h2] h3] h4].
  repeat (apply Forall_app; split); apply be_bytes_range.
Qed.

(** X10.  With the default algorithm, [hash_string] on a string of code
    points below 256 returns a string of 40 characters, each a digit or
    one of the letters a to f: the hexadecimal form of the SHA-1 digest of
    the UTF-8 encoding. *)
Theorem hash_string_default_hex (backend_names : list string)
    (other_digest : string → list Z → list Z)
    (user_call : nat → list pyval → kwargs → result pyval) (value : string) :
  ∃ hex,
    lib_call backend_names other_digest user_call FnHashString [VStr value] [] =
      Ok (VStr hex)
    ∧ hex = hex_of_bytes (SHA1.digest (encode_utf8 value))
    ∧ String.length hex = 40
    ∧ ∀ c, c ∈ String.list_ascii_of_string hex → c ∈ hex_chars.
Proof.
  exists (hex_of_bytes (SHA1.digest (encode_utf8 value))). split.
  - change (hash_string backend_names other_digest (VStr value) (VStr "sha1") =
            Ok (VStr (hex_of_bytes (SHA1.digest (encode_utf8 value))))).
    rewrite hash_string_fixed_length; [done| |].
    + apply (bool_decide_unpack _). vm_compute. exact I.
    + apply (bool_decide_unpack _). vm_compute. exact I.
  - split; [done|]. split.
    + by rewrite hex_of_bytes_length, sha1_digest_length.
    + apply hex_of_bytes_chars, sha1_digest_range.
Qed.

(** ** Registration, continued *)

Section RegistrationProperties.

Context (call : call_sem).

(** The errors of the check: [TypeError], [ValueError], or an error of
    the probed function that does not derive from [Exception] and so is
    not caught. *)
Lemma check_function_kinds func args kw e :
  _check_function call func args kw = Raise e →
  exn_type e = TypeError ∨ exn_type e = ValueError
  ∨ (is_exception (exn_type e) = false
     ∧ ∃ f, func = VFunc f
            ∧ call f (VStr "test_string" :: args) kw = Raise e).
Proof.
  destruct (keyword_clash ["func"] kw.*1) eqn:Ek.
  - unfold _check_function. rewrite Ek. intros [= <-]. by left.
  - rewrite check_function_spec by done.
    destruct func; try (intros [= <-]; by left).
    destruct (call f _ kw) as [[]|e0] eqn:Ec;
      try (intros [= <-]; right; by left).
    destruct (is_exception (exn_type e0)) eqn:Ei; intros [= <-].
    + right. by left.
    + right. right. split; [done|]. by exists f.
Qed.

(** [__add__] either raises before it reaches [add], with the store
    untouched, or it is a call of [add] that returns [self]. *)
Lemma dunder_add_cases self step h :
  (∃ e, __add__ call self step h = (h, Raise e)
        ∧ (exn_type e = TypeError ∨ exn_type e = ValueError))
  ∨ ∃ func a k,
      __add__ call self step h = (do add call self func a k in ret self) h.
Proof.
  unfold __add__.
  destruct (callable step) eqn:Ec.
  - right. destruct step; try done. by exists (VFunc f), [], [].
  - destruct (isinstance_tuple step) eqn:Et.
    + destruct step as [| | | |elems| | | |]; try done.
      unfold bind, ret, lift, raise.
      destruct (scan_step elems) as [[func args] kw].
      destruct (truthy func); cbn [negb].
      2:{ left. eexists. split; [done|]. by right. }
      destruct (unpack_args args) as [a|e] eqn:Ea.
      2:{ left. exists e. split; [done|]. left.
          destruct args; simpl in Ea; (done || by injection Ea as <-). }
      destruct (unpack_kwargs kw) as [k|e] eqn:Ek.
      2:{ left. exists e. split; [done|]. left.
          destruct kw as [| | | | | |items| |]; simpl in Ek;
            try (by injection Ek as <-).
          clear -Ek. revert e Ek.
          induction items as [|[key v] items IH]; intros e; [done|].
          simpl. destruct key; try (by intros [= <-]).
          destruct (unpack_items items); simpl; [done|].
          intros [= <-]. by apply IH. }
      right. by exists func, a, k.
    + left. eexists. split; [done|]. by left.
Qed.

Lemma add_cases (self : loc) (func : pyval) (args : list pyval)
    (kw : kwargs) (h : heap) (t : StringTransformer) :
  transformers h !! self = Some t →
  match add call self func args kw h with
  | (h', Ok _) =>
      transformers h' !! self =
        Some (MkStringTransformer (_columns t) (_pipeline t ++ [(func, args, kw)]))
      ∧ (∀ l, l ≠ self → transformers h' !! l = transformers h !! l)
      ∧ frames h' = frames h
      ∧ validated call (func, args, kw)
  | (h', Raise e) =>
      h' = h
      ∧ (exn_type e = TypeError ∨ exn_type e = ValueError
         ∨ (is_exception (exn_type e) = false
            ∧ ∃ f, func = VFunc f ∧ call f [VStr "test_string"] [] = Raise e))
  end.
Proof.
  intros Ht. rewrite (add_spec _ _ _ _ _ _ _ Ht).
  destruct (keyword_clash _ _); [split; [done|by left]|].
  destruct (_check_function call func [] []) as [[]|e] eqn:Ec.
  - cbn [transformers frames]. split; [apply lookup_insert_eq|].
    split; [intros l Hl; by rewrite lookup_insert_ne|]. done.
  - split; [done|]. by eapply check_function_kinds.
Qed.

(** X11.  A successful [add] puts exactly the new step at the end of the
    pipeline of [self], keeps the column list and the earlier steps, and
    changes no other object; the function of the new step passed the
    check.  A failing [add] leaves the store as it was and raises
    [TypeError] or [ValueError], unless the probed function raised an
    error that does not derive from [Exception] ([SystemExit],
    [KeyboardInterrupt], [GeneratorExit]): that error leaves [add] as it
    is. *)
Theorem add_outcome (self : loc) (func : pyval) (args : list pyval)
    (kw : kwargs) (h : heap) (t : StringTransformer) :
  transformers h !! self = Some t →
  match add call self func args kw h with
  | (h', Ok _) =>
      transformers h' !! self =
        Some (MkStringTransformer (_columns t) (_pipeline t ++ [(func, args, kw)]))
      ∧ (∀ l, l ≠ self → transformers h' !! l = transformers h !! l)
      ∧ frames h' = frames h
      ∧ validated call (func, args, kw)
  | (h', Raise e) =>
      h' = h
      ∧ (exn_type e = TypeError ∨ exn_type e = ValueError
         ∨ (is_exception (exn_type e) = false
            ∧ ∃ f, func = VFunc f ∧ call f [VStr "test_string"] [] = Raise e))
  end.
Proof. apply add_cases. Qed.

Lemma add_keeps_validated self func args kw h t h' r :
  transformers h !! self = Some t →
  Forall (validated call) (_pipeline t) →
  add call self func args kw h = (h', r) →
  ∃ t', transformers h' !! self = Some t'
        ∧ Forall (validated call) (_pipeline t')
        ∧ _columns t' = _columns t.
Proof.
  intros Ht Hv Ha. pose proof (add_cases self func args kw h t Ht) as H.
  rewrite Ha in H. destruct r as [u|e].
  - destruct H as (Hs & _ & _ & Hnew). eexists. split; [exact Hs|].
    split; [|done]. simpl. apply Forall_app. split; [done|]. by constructor.
  - destruct H as [-> _]. by exists t.
Qed.

(** X12.  The pipeline of a new transformer is empty, and neither [add]
    nor [__add__], succeeding or failing, ever leaves in the pipeline a
    step whose function did not pass the check; both keep the column
    list. *)
Theorem pipeline_stays_validated (self : loc) (h : heap) (t : StringTransformer) :
  transformers h !! self = Some t →
  Forall (validated call) (_pipeline t) →
  (∀ func args kw h' r,
     add call self func args kw h = (h', r) →
     ∃ t', transformers h' !! self = Some t'
           ∧ Forall (validated call) (_pipeline t')
           ∧ _columns t' = _columns t)
  ∧ (∀ step h' r,
       __add__ call self step h = (h', r) →
       ∃ t', transformers h' !! self = Some t'
             ∧ Forall (validated call) (_pipeline t')
             ∧ _columns t' = _columns t)
  ∧ (∀ columns h0,
       ∃ t0, transformers (__init__ columns h0).1 !! fresh (dom (transformers h0))
               = Some t0
             ∧ (__init__ columns h0).2 = Ok (fresh (dom (transformers h0)))
             ∧ _pipeline t0 = [] ∧ _columns t0 = columns).
Proof.
  intros Ht Hv. split; [|split].
  - intros func args kw h' r. by apply add_keeps_validated.
  - intros step h' r Hs.
    destruct (dunder_add_cases self step h) as [(e & He & _)|(func & a & k & He)].
    + rewrite He in Hs. injection Hs as <- <-. by exists t.
    + rewrite He in Hs. unfold bind in Hs.
      destruct (add call self func a k h) as [h1 [u|e]] eqn:Ea.
      * injection Hs as <- <-. by eapply add_keeps_validated.
      * injection Hs as <- <-. by eapply add_keeps_validated.
  - intros columns h0. eexists. cbn. split; [apply lookup_insert_eq|done].
Qed.

(** X13.  A failing [__add__] appends nothing: the store is the one before
    the call.  The exception is a [TypeError] or a [ValueError], unless the
    probed function raised an error that does not derive from [Exception]:
    that error leaves [__add__] as it is. *)
Theorem dunder_add_failure (self : loc) (step : pyval) (h h' : heap)
    (t : StringTransformer) (e : exn) :
  transformers h !! self = Some t →
  __add__ call self step h = (h', Raise e) →
  h' = h
  ∧ (exn_type e = TypeError ∨ exn_type e = ValueError
     ∨ (is_exception (exn_type e) = false
        ∧ ∃ f, call f [VStr "test_string"] [] = Raise e)).
Proof.
  intros Ht Hs.
  destruct (dunder_add_cases self step h) as [(e0 & He & Hk)|(func & a & k & He)].
  - rewrite He in Hs. injection Hs as <- <-. split; [done|].
    destruct Hk; [by left|right; by left].
  - rewrite He in Hs. unfold bind in Hs.
    pose proof (add_cases self func a k h t Ht) as H.
    destruct (add call self func a k h) as [h1 [u|e1]]; [done|].
    injection Hs as <- <-. destruct H as [-> H]. split; [done|].
    destruct H as [H|[H|(Hi & f & _ & Hf)]]; [by left|right; by left|].
    right. right. split; [done|]. by exists f.
Qed.

(** X14.  Two additions in a chain, [tfm + f + g] with functions that pass
    the check, work on the same transformer: the result is that object,
    and its pipeline is the old one followed by the step of [f] and then
    the step of [g], both without extra arguments. *)
Theorem dunder_add_chain (self : loc) (f g : fn) (h : heap)
    (t : StringTransformer) :
  transformers h !! self = Some t →
  _check_function call (VFunc f) [] [] = Ok tt →
  _check_function call (VFunc g) [] [] = Ok tt →
  (let* r := __add__ call self (VFunc f) in __add__ call r (VFunc g)) h =
  (MkHeap
     (<[self := MkStringTransformer (_columns t)
                  (_pipeline t ++ [(VFunc f, [], []); (VFunc g, [], [])])]>
        (transformers h))
     (frames h),
   Ok self).
Proof.
  intros Ht Hf Hg.
  assert (∀ x h0 t0, transformers h0 !! self = Some t0 →
            _check_function call (VFunc x) [] [] = Ok tt →
            __add__ call self (VFunc x) h0 =
            (MkHeap (<[self := MkStringTransformer (_columns t0)
                                 (_pipeline t0 ++ [(VFunc x, [], [])])]>
                       (transformers h0)) (frames h0), Ok self)) as Hone.
  { intros x h0 t0 Ht0 Hx.
    change (__add__ call self (VFunc x) h0)
      with ((do add call self (VFunc x) [] [] in ret self) h0).
    unfold bind. rewrite (add_spec _ _ _ _ _ _ _ Ht0), Hx. done. }
  unfold bind at 1. rewrite (Hone f h t Ht Hf).
  rewrite (Hone g _ _ (lookup_insert_eq _ _ _) Hg).
  cbn [transformers frames _columns _pipeline].
  by rewrite insert_insert_eq, <- app_assoc.
Qed.

(** X15.  After a successful [add], [_apply_steps] is what it was before
    followed by the new step: the old result is the first argument of the
    new function, followed by the step's extra arguments. *)
Theorem apply_steps_after_add (self : loc) (func : pyval) (args : list pyval)
    (kw : kwargs) (h h' : heap) (t : StringTransformer) (v : pyval) :
  transformers h !! self = Some t →
  add call self func args kw h = (h', Ok tt) →
  _apply_steps call self v h' =
  (h', rbind (_apply_steps call self v h).2
         (λ x, py_call call func (x :: args) kw)).
Proof.
  intros Ht Ha. pose proof (add_cases self func args kw h t Ht) as H.
  rewrite Ha in H. destruct H as (Ht' & _).
  rewrite (apply_steps_run _ _ _ _ _ Ht'), (apply_steps_run _ _ _ _ _ Ht).
  cbn [_pipeline snd]. by rewrite composition_snoc.
Qed.

(** X16.  A transformer whose pipeline is the pipeline of [a] followed by
    the pipeline of [b] maps a value like [a] and then [b]. *)
Theorem apply_steps_concat (a b c : loc) (h : heap)
    (ta tb tc : StringTransformer) (v : pyval) :
  transformers h !! a = Some ta →
  transformers h !! b = Some tb →
  transformers h !! c = Some tc →
  _pipeline tc = _pipeline ta ++ _pipeline tb →
  _apply_steps call c v h =
  (h, rbind (_apply_steps call a v h).2 (λ x, (_apply_steps call b x h).2)).
Proof.
  intros Ha Hb Hc Hp.
  rewrite (apply_steps_run _ _ _ _ _ Hc), (apply_steps_run _ _ _ _ _ Ha), Hp.
  rewrite composition_app. f_equal.
  destruct (composition call (_pipeline ta) v); [|done]. simpl.
  by rewrite (apply_steps_run _ _ _ _ _ Hb).
Qed.

End RegistrationProperties.

(** ** Applying the pipeline to a table, continued *)

Lemma forallb_str_labels (columns : list label) :
  forallb is_str_label columns = true
  ↔ ∀ c, c ∈ columns → ∃ s : string, c = LStr s.
Proof.
  rewrite forallb_forall. split.
  - intros H c Hc%list_elem_of_In. specialize (H c Hc).
    destruct c as [s|n]; [by exists s|done].
  - intros H c Hc%list_elem_of_In. by destruct (H c Hc) as [s ->].
Qed.

Section TransformProperties.

Context (call : call_sem) (map_infer : dtype → list pyval → Series).

(** X18.  [transform] returns a frame exactly when every label it selects
    is in the input and is a string other than "self", and [_apply_steps]
    succeeds on every cell of every column that carries a selected
    label. *)
Theorem transform_succeeds_iff (self X : loc) (h : heap)
    (t : StringTransformer) (df : DataFrame) :
  transformers h !! self = Some t →
  frames h !! X = Some df →
  (∃ h' r, transform call map_infer self X h = (h', Ok r))
  ↔ ((∀ c, c ∈ select_columns t df → c ∈ df_iter df)
     ∧ (∀ c, c ∈ select_columns t df → ∃ s : string, c = LStr s ∧ s ≠ "self")
     ∧ (∀ c s v, c ∈ select_columns t df → (c, s) ∈ df → v ∈ s_values s →
          ∃ v', (_apply_steps call self v h).2 = Ok v')).
Proof.
  intros Ht HX. rewrite (transform_outcome _ _ _ _ _ _ _ Ht HX).
  assert (∀ cells,
            first_error (composition call (_pipeline t)) cells = None
            ↔ ∀ v, v ∈ cells → ∃ v', (_apply_steps call self v h).2 = Ok v')
    as Hcells.
  { intros cells. rewrite first_error_None. split; intros H v Hv.
    - rewrite (apply_steps_run _ _ _ _ _ Ht). by apply H.
    - destruct (H v Hv) as [v' Hv'].
      rewrite (apply_steps_run _ _ _ _ _ Ht) in Hv'. by exists v'. }
  split.
  - intros (h' & r & Hr).
    destruct (loop_error _ _ _ _) eqn:El; [done|].
    destruct (forallb is_str_label (select_columns t df)) eqn:Es; [|done].
    destruct (bool_decide _) eqn:Eb; [done|].
    apply loop_error_None in El as [Hin Hok].
    split; [done|]. split.
    + intros c Hc.
      destruct (proj1 (forallb_str_labels _) Es c Hc) as [s ->].
      exists s. split; [done|]. intros ->.
      apply bool_decide_eq_false in Eb. done.
    + intros c s v Hc Hs Hv. apply (proj1 (Hcells _) Hok).
      apply cells_of_elem. eauto.
  - intros (Hin & Hstr & Hok).
    rewrite (proj2 (loop_error_None call _ _ _)).
    2:{ split; [done|]. apply Hcells. intros v (c & s & Hc & Hs & Hv)%cells_of_elem.
        eauto. }
    rewrite (proj2 (forallb_str_labels _)).
    2:{ intros c Hc. destruct (Hstr c Hc) as (s & -> & _). by exists s. }
    rewrite bool_decide_eq_false_2; [by do 2 eexists|].
    intros Hself. destruct (Hstr _ Hself) as (s & [= <-] & Hne). done.
Qed.

(** X19.  [transform] can be repeated: after a call that returned a
    frame, a second call on the same input returns another new frame with
    the same content, and both the input and the first result are still in
    the store as they were. *)
Theorem transform_repeatable (self X : loc) (h h1 : heap) (r1 : loc)
    (t : StringTransformer) (df : DataFrame) :
  transformers h !! self = Some t →
  frames h !! X = Some df →
  transform call map_infer self X h = (h1, Ok r1) →
  ∃ h2 r2,
    transform call map_infer self X h1 = (h2, Ok r2)
    ∧ r2 ≠ r1
    ∧ frames h2 !! r2 = frames h1 !! r1
    ∧ frames h2 !! r1 = frames h1 !! r1
    ∧ frames h2 !! X = Some df.
Proof.
  intros Ht HX. rewrite (transform_outcome _ _ _ _ _ _ _ Ht HX).
  destruct (loop_error _ _ _ _) eqn:El; [done|].
  destruct (negb _) eqn:Es; [done|].
  destruct (bool_decide _) eqn:Eb; [done|].
  intros [= <- <-].
  set (df' := replace_targets call map_infer (_pipeline t)
                (select_columns t df) df).
  pose proof (fresh_frame_None h) as Hfresh.
  assert (X ≠ fresh (dom (frames h))) as HXr by (intros E; congruence).
  set (hh := MkHeap (transformers h)
               (<[fresh (dom (frames h)) := df']> (frames h))).
  assert (frames hh !! X = Some df) as HX1
    by (cbn; by rewrite lookup_insert_ne).
  rewrite (transform_outcome _ _ _ _ hh t df Ht HX1), El, Es, Eb.
  do 2 eexists. split; [done|]. subst hh. cbn [frames].
  assert (fresh (dom (<[fresh (dom (frames h)) := df']> (frames h)))
          ≠ fresh (dom (frames h))) as Hne.
  { intros E. pose proof (is_fresh (dom (<[fresh (dom (frames h)) := df']>
                                          (frames h)))) as Hf.
    rewrite E in Hf. apply Hf. apply elem_of_dom. rewrite lookup_insert_eq. done. }
  split; [done|]. rewrite !lookup_insert_eq.
  split; [done|]. rewrite lookup_insert_ne by done. rewrite lookup_insert_eq.
  split; [done|]. rewrite lookup_insert_ne.
  - by rewrite lookup_insert_ne.
  - intros E. pose proof (is_fresh (dom (<[fresh (dom (frames h)) := df']>
                                          (frames h)))) as Hf.
    rewrite E in Hf. apply Hf. apply elem_of_dom.
    rewrite lookup_insert_ne by done. by rewrite HX.
Qed.

Lemma loop_error_same_labels steps df cols1 cols2 :
  (∀ c, c ∈ cols1 ↔ c ∈ cols2) →
  loop_error call steps df cols1 = None →
  loop_error call steps df cols2 = None.
Proof.
  intros Hiff [Hin Hok]%loop_error_None. apply loop_error_None. split.
  - intros c Hc. by apply Hin, Hiff.
  - apply first_error_None. intros v (c & s & Hc & Hs & Hv)%cells_of_elem.
    apply (proj1 (first_error_None _ _) Hok). apply cells_of_elem.
    exists c, s. split; [by apply Hiff|done].
Qed.

(** X20.  The order of the selected columns and repetitions among them do
    not matter for the result: two transformers with the same steps whose
    selections hold the same labels return, from the same store and for a
    frame with distinct labels, the same frame at the same address
    whenever the first one returns. *)
Theorem transform_column_order (self1 self2 X : loc) (h h' : heap) (r : loc)
    (t1 t2 : StringTransformer) (df : DataFrame) :
  transformers h !! self1 = Some t1 →
  transformers h !! self2 = Some t2 →
  frames h !! X = Some df →
  NoDup (df_iter df) →
  _pipeline t1 = _pipeline t2 →
  (∀ c, c ∈ select_columns t1 df ↔ c ∈ select_columns t2 df) →
  transform call map_infer self1 X h = (h', Ok r) →
  transform call map_infer self2 X h = (h', Ok r).
Proof.
  intros Ht1 Ht2 HX _ Hp Hiff.
  rewrite (transform_outcome _ _ _ _ _ _ _ Ht1 HX).
  rewrite (transform_outcome _ _ _ _ _ _ _ Ht2 HX).
  rewrite <- Hp.
  destruct (loop_error _ _ _ (select_columns t1 df)) eqn:El; [done|].
  rewrite (loop_error_same_labels _ _ _ _ Hiff El).
  rewrite <- (forallb_same_elements is_str_label _ _ Hiff).
  destruct (negb _); [done|].
  rewrite <- (bool_decide_ext _ _ (Hiff (LStr "self"))).
  destruct (bool_decide _); [done|].
  by rewrite (replace_targets_same_elements _ _ _ _ _ _ Hiff).
Qed.

(** X21.  When the columns are selected by type and the frame has no
    column of the object type, [transform] returns a new frame equal to
    the input, declared types included, whatever the steps are. *)
Theorem transform_no_object_column (self X : loc) (h : heap)
    (t : StringTransformer) (df : DataFrame) :
  transformers h !! self = Some t →
  frames h !! X = Some df →
  _columns t = None ∨ _columns t = Some [] →
  (∀ c, c ∈ df → s_dtype c.2 ≠ DObject) →
  ∃ r, transform call map_infer self X h =
         (MkHeap (transformers h) (<[r := df]> (frames h)), Ok r)
       ∧ frames h !! r = None.
Proof.
  intros Ht HX Hc Hd. rewrite (transform_outcome _ _ _ _ _ _ _ Ht HX).
  assert (select_columns t df = []) as ->.
  { assert (select_dtypes_object df = []) as Hs.
    { unfold select_dtypes_object. clear -Hd.
      induction df as [|c df IH]; [done|].
      rewrite filter_cons, decide_False by (apply Hd; left).
      apply IH. intros c' Hc'. apply Hd. by right. }
    unfold select_columns. destruct Hc as [-> | ->]; simpl; by rewrite Hs. }
  rewrite replace_targets_nil.
  eexists. split; [done|]. apply fresh_frame_None.
Qed.

End TransformProperties.

(** ** The further properties at concrete inputs *)

Lemma add_outcome_witness :
  transformers fresh_transformer_heap !! 0 = Some (MkStringTransformer None [])
  ∧ match add example_call 0 (VFunc FnHashString) [] [] fresh_transformer_heap with
    | (h', Ok _) =>
        transformers h' !! 0 =
          Some (MkStringTransformer None ([] ++ [(VFunc FnHashString, [], [])]))
        ∧ (∀ l, l ≠ 0 →
             transformers h' !! l = transformers fresh_transformer_heap !! l)
        ∧ frames h' = frames fresh_transformer_heap
        ∧ validated example_call (VFunc FnHashString, [], [])
    | (h', Raise e) =>
        h' = fresh_transformer_heap
        ∧ (exn_type e = TypeError ∨ exn_type e = ValueError
           ∨ (is_exception (exn_type e) = false
              ∧ ∃ f, VFunc FnHashString = VFunc f
                     ∧ example_call f [VStr "test_string"] [] = Raise e))
    end.
Proof.
  split; [reflexivity|].
  exact (add_outcome example_call 0 (VFunc FnHashString) [] []
           fresh_transformer_heap (MkStringTransformer None []) eq_refl).
Defined.

Lemma pipeline_stays_validated_witness :
  transformers (example_heap (MkStringTransformer None [hash_step])) !! 0 =
    Some (MkStringTransformer None [hash_step])
  ∧ Forall (validated example_call)
      (_pipeline (MkStringTransformer None [hash_step]))
  ∧ ∃ t',
      transformers
        (__add__ example_call 0 (VFunc (FnUser 0))
           (example_heap (MkStringTransformer None [hash_step]))).1 !! 0 = Some t'
      ∧ Forall (validated example_call) (_pipeline t')
      ∧ _columns t' = _columns (MkStringTransformer None [hash_step]).
Proof.
  assert (Forall (validated example_call)
            (_pipeline (MkStringTransformer None [hash_step]))) as Hv.
  { constructor; [vm_compute; reflexivity|constructor]. }
  split; [reflexivity|]. split; [exact Hv|].
  exact (proj1 (proj2 (pipeline_stays_validated example_call 0
                         (example_heap (MkStringTransformer None [hash_step]))
                         (MkStringTransformer None [hash_step]) eq_refl Hv))
           (VFunc (FnUser 0)) _ _ (surjective_pairing _)).
Defined.

Lemma dunder_add_failure_witness :
  transformers fresh_transformer_heap !! 0 = Some (MkStringTransformer None [])
  ∧ __add__ example_call 0 (VInt 3) fresh_transformer_heap =
    (fresh_transformer_heap,
     Raise (Exn TypeError "Can only add steps as callable or tuple."))
  ∧ fresh_transformer_heap = fresh_transformer_heap
  ∧ (exn_type (Exn TypeError "Can only add steps as callable or tuple.") = TypeError
     ∨ exn_type (Exn TypeError "Can only add steps as callable or tuple.")
       = ValueError
     ∨ (is_exception
          (exn_type (Exn TypeError "Can only add steps as callable or tuple."))
        = false
        ∧ ∃ f, example_call f [VStr "test_string"] [] =
               Raise (Exn TypeError "Can only add steps as callable or tuple."))).
Proof.
  split; [reflexivity|]. split; [reflexivity|].
  exact (dunder_add_failure example_call 0 (VInt 3) fresh_transformer_heap
           fresh_transformer_heap (MkStringTransformer None [])
           (Exn TypeError "Can only add steps as callable or tuple.")
           eq_refl eq_refl).
Defined.

(** [tfm + strip_punctuation + snake_case] *)
Lemma dunder_add_chain_witness :
  transformers fresh_transformer_heap !! 0 = Some (MkStringTransformer None [])
  ∧ _check_function package_call (VFunc (FnUser 1)) [] [] = Ok tt
  ∧ _check_function package_call (VFunc (FnUser 0)) [] [] = Ok tt
  ∧ (let* r := __add__ package_call 0 (VFunc (FnUser 1)) in
     __add__ package_call r (VFunc (FnUser 0))) fresh_transformer_heap =
    (MkHeap
       (<[0 := MkStringTransformer None ([] ++ [strip_step; snake_step])]>
          (transformers fresh_transformer_heap))
       (frames fresh_transformer_heap),
     Ok 0).
Proof.
  assert (_check_function package_call (VFunc (FnUser 1)) [] [] = Ok tt) as H1
    by (vm_compute; reflexivity).
  assert (_check_function package_call (VFunc (FnUser 0)) [] [] = Ok tt) as H0
    by (vm_compute; reflexivity).
  split; [reflexivity|]. split; [exact H1|]. split; [exact H0|].
  exact (dunder_add_chain package_call 0 (FnUser 1) (FnUser 0)
           fresh_transformer_heap (MkStringTransformer None []) eq_refl H1 H0).
Defined.

Lemma apply_steps_after_add_witness :
  transformers (example_heap (MkStringTransformer None [strip_step])) !! 0 =
    Some (MkStringTransformer None [strip_step])
  ∧ add package_call 0 (VFunc (FnUser 0)) [] []
      (example_heap (MkStringTransformer None [strip_step])) =
    (example_heap (MkStringTransformer None [strip_step; snake_step]), Ok tt)
  ∧ _apply_steps package_call 0 (VStr " One, Two! ")
      (example_heap (MkStringTransformer None [strip_step; snake_step])) =
    (example_heap (MkStringTransformer None [strip_step; snake_step]),
     rbind
       (_apply_steps package_call 0 (VStr " One, Two! ")
          (example_heap (MkStringTransformer None [strip_step]))).2
       (λ x, py_call package_call (VFunc (FnUser 0)) [x] [])).
Proof.
  assert (add package_call 0 (VFunc (FnUser 0)) [] []
            (example_heap (MkStringTransformer None [strip_step])) =
          (example_heap (MkStringTransformer None [strip_step; snake_step]), Ok tt))
    as Ha by (vm_compute; reflexivity).
  split; [reflexivity|]. split; [exact Ha|].
  exact (apply_steps_after_add package_call 0 (VFunc (FnUser 0)) [] []
           (example_heap (MkStringTransformer None [strip_step]))
           (example_heap (MkStringTransformer None [strip_step; snake_step]))
           (MkStringTransformer None [strip_step]) (VStr " One, Two! ")
           eq_refl Ha).
Defined.

Lemma apply_steps_concat_witness :
  transformers stages_heap !! 0 = Some (MkStringTransformer (Some [LStr "label"]) [strip_step])
  ∧ transformers stages_heap !! 1 =
    Some (MkStringTransformer (Some [LStr "label"]) [snake_step])
  ∧ transformers stages_heap !! 2 =
    Some (MkStringTransformer (Some [LStr "label"]) [strip_step; snake_step])
  ∧ _apply_steps package_call 2 (VStr " One, Two! ") stages_heap =
    (stages_heap, Ok (VStr "_one_two_")).
Proof.
  split; [reflexivity|]. split; [reflexivity|]. split; [reflexivity|].
  rewrite (apply_steps_concat package_call 0 1 2 stages_heap
             (MkStringTransformer (Some [LStr "label"]) [strip_step])
             (MkStringTransformer (Some [LStr "label"]) [snake_step])
             (MkStringTransformer (Some [LStr "label"]) [strip_step; snake_step])
             (VStr " One, Two! ") eq_refl eq_refl eq_refl eq_refl).
  vm_compute. reflexivity.
Defined.

(** The steps of [hash_string] on the object column of the example
    frame: every condition holds, so [transform] returns. *)
Lemma transform_succeeds_iff_witness :
  transformers (example_heap (MkStringTransformer None [hash_step])) !! 0 =
    Some (MkStringTransformer None [hash_step])
  ∧ frames (example_heap (MkStringTransformer None [hash_step])) !! 0 =
    Some example_frame
  ∧ ∃ h' r, transform example_call example_map_infer 0 0
              (example_heap (MkStringTransformer None [hash_step])) = (h', Ok r).
Proof.
  split; [reflexivity|]. split; [reflexivity|].
  apply (proj2 (transform_succeeds_iff example_call example_map_infer 0 0
                  (example_heap (MkStringTransformer None [hash_step]))
                  (MkStringTransformer None [hash_step]) example_frame
                  eq_refl eq_refl)).
  change (select_columns (MkStringTransformer None [hash_step]) example_frame)
    with [LStr "label"].
  split; [|split].
  - intros c Hc. apply list_elem_of_singleton in Hc. subst c.
    apply (bool_decide_unpack _). vm_compute. exact I.
  - intros c Hc. apply list_elem_of_singleton in Hc. subst c.
    exists "label". split; [reflexivity|discriminate].
  - intros c s v Hc Hs Hv. apply list_elem_of_singleton in Hc. subst c.
    apply elem_of_cons in Hs as [Hs|Hs]; [discriminate Hs|].
    apply list_elem_of_singleton in Hs. injection Hs as Hs. subst s.
    apply elem_of_cons in Hv as [Hv|Hv]; [subst v; eexists; vm_compute; reflexivity|].
    apply list_elem_of_singleton in Hv. subst v. eexists. vm_compute. reflexivity.
Defined.

Lemma transform_repeatable_witness :
  transformers (example_heap (MkStringTransformer None [hash_step])) !! 0 =
    Some (MkStringTransformer None [hash_step])
  ∧ frames (example_heap (MkStringTransformer None [hash_step])) !! 0 =
    Some example_frame
  ∧ transform example_call example_map_infer 0 0
      (example_heap (MkStringTransformer None [hash_step])) =
    ((transform example_call example_map_infer 0 0
        (example_heap (MkStringTransformer None [hash_step]))).1, Ok 1)
  ∧ ∃ h2 r2,
      transform example_call example_map_infer 0 0
        (transform example_call example_map_infer 0 0
           (example_heap (MkStringTransformer None [hash_step]))).1 = (h2, Ok r2)
      ∧ r2 ≠ 1
      ∧ frames h2 !! r2 =
        frames (transform example_call example_map_infer 0 0
                  (example_heap (MkStringTransformer None [hash_step]))).1 !! 1
      ∧ frames h2 !! 1 =
        frames (transform example_call example_map_infer 0 0
                  (example_heap (MkStringTransformer None [hash_step]))).1 !! 1
      ∧ frames h2 !! 0 = Some example_frame.
Proof.
  assert (transform example_call example_map_infer 0 0
            (example_heap (MkStringTransformer None [hash_step])) =
          ((transform example_call example_map_infer 0 0
              (example_heap (MkStringTransformer None [hash_step]))).1, Ok 1))
    as Hr by (vm_compute; reflexivity).
  split; [reflexivity|]. split; [reflexivity|]. split; [exact Hr|].
  exact (transform_repeatable example_call example_map_infer 0 0
           (example_heap (MkStringTransformer None [hash_step])) _ 1
           (MkStringTransformer None [hash_step]) example_frame
           eq_refl eq_refl Hr).
Defined.

Lemma transform_column_order_witness :
  transformers orders_heap !! 0 =
    Some (MkStringTransformer (Some [LStr "label"; LStr "x"; LStr "label"]) [])
  ∧ transformers orders_heap !! 1 = Some (MkStringTransformer (Some [LStr "x"; LStr "label"]) [])
  ∧ frames orders_heap !! 0 = Some example_frame
  ∧ NoDup (df_iter example_frame)
  ∧ transform example_call example_map_infer 0 0 orders_heap =
    ((transform example_call example_map_infer 0 0 orders_heap).1, Ok 1)
  ∧ transform example_call example_map_infer 1 0 orders_heap =
    ((transform example_call example_map_infer 0 0 orders_heap).1, Ok 1).
Proof.
  assert (NoDup (df_iter example_frame)) as Hnd.
  { apply (bool_decide_unpack _). vm_compute. exact I. }
  assert (transform example_call example_map_infer 0 0 orders_heap =
          ((transform example_call example_map_infer 0 0 orders_heap).1, Ok 1))
    as Hr by (vm_compute; reflexivity).
  split; [reflexivity|]. split; [reflexivity|]. split; [reflexivity|].
  split; [exact Hnd|]. split; [exact Hr|].
  apply (transform_column_order example_call example_map_infer 0 1 0
           orders_heap _ 1
           (MkStringTransformer (Some [LStr "label"; LStr "x"; LStr "label"]) [])
           (MkStringTransformer (Some [LStr "x"; LStr "label"]) []) example_frame
           eq_refl eq_refl eq_refl Hnd eq_refl); [|exact Hr].
  intros c.
  change (c ∈ [LStr "label"; LStr "x"; LStr "label"] ↔ c ∈ [LStr "x"; LStr "label"]).
  rewrite !elem_of_cons. pose proof (not_elem_of_nil c). tauto.
Defined.

Lemma transform_no_object_column_witness :
  transformers (MkHeap {[0 := MkStringTransformer None [hash_step]]}
                  {[0 := numeric_frame]}) !! 0 =
    Some (MkStringTransformer None [hash_step])
  ∧ (∀ c, c ∈ numeric_frame → s_dtype c.2 ≠ DObject)
  ∧ ∃ r, transform example_call example_map_infer 0 0
           (MkHeap {[0 := MkStringTransformer None [hash_step]]}
              {[0 := numeric_frame]}) =
         (MkHeap {[0 := MkStringTransformer None [hash_step]]}
            (<[r := numeric_frame]> {[0 := numeric_frame]}), Ok r)
       ∧ ({[0 := numeric_frame]} : gmap loc DataFrame) !! r = None.
Proof.
  assert (∀ c, c ∈ numeric_frame → s_dtype c.2 ≠ DObject) as Hd.
  { intros c Hc. apply elem_of_cons in Hc as [->|Hc]; [discriminate|].
    apply list_elem_of_singleton in Hc. subst c. discriminate. }
  split; [reflexivity|]. split; [exact Hd|].
  exact (transform_no_object_column example_call example_map_infer 0 0
           (MkHeap {[0 := MkStringTransformer None [hash_step]]}
              {[0 := numeric_frame]})
           (MkStringTransformer None [hash_step]) numeric_frame
           eq_refl eq_refl (or_introl eq_refl) Hd).
Defined.
